(** * zoom_summary_to_agenda: a shallow embedding and its properties

    The script reads a Zoom AI meeting summary, splits it into three
    labelled sections, parses each section into records and renders a
    Markdown meeting-log section.  This file embeds the functions of
    [zoom_summary_to_agenda.py] as Rocq functions and proves the properties
    stated about them.

    Conventions.
    - A Python [str] is a sequence of Unicode code points: [str := list N].
      ASCII literals are written with [lit]; the em dash of the renderer is
      the code point 8212.
    - A Python function that may raise returns a [result]; the exceptions
      the script can meet are the constructors of [exn].
    - A [dict] with string keys is a [gmap str _].
    - [str.lower] (the Unicode lowercase mapping) is a parameter [lower] of
      the section splitter; the concrete [ascii_lower] agrees with it on
      ASCII text and is used in the worked examples. *)

From Stdlib Require Import NArith List String Ascii Bool.
From stdpp Require Import base option list gmap fin_maps.

Local Open Scope N_scope.

(** ** Strings *)

Abbreviation char := N (only parsing).
Abbreviation str := (list N) (only parsing).

(** An ASCII literal as a sequence of code points. *)
Definition lit (s : string) : str :=
  List.map N_of_ascii (list_ascii_of_string s).

(** Python truthiness of a string: non-empty. *)
Definition truthy (s : str) : bool :=
  match s with [] => false | _ :: _ => true end.

(** [a or b] on strings. *)
Definition str_or (a b : str) : str := if truthy a then a else b.

(** The characters [str.strip()] removes and the regex class [\s] matches
    (on [str] patterns both are [Py_UNICODE_ISSPACE]). *)
Definition is_space (c : char) : bool :=
  ((9 <=? c) && (c <=? 13)) || ((28 <=? c) && (c <=? 32))
  || (c =? 133) || (c =? 160) || (c =? 5760)
  || ((8192 <=? c) && (c <=? 8202))
  || (c =? 8232) || (c =? 8233) || (c =? 8239) || (c =? 8287) || (c =? 12288).

(** The regex class [[.!?]]. *)
Definition is_terminal (c : char) : bool :=
  (c =? 46) || (c =? 33) || (c =? 63).

Fixpoint lstrip (s : str) : str :=
  match s with
  | [] => []
  | c :: r => if is_space c then lstrip r else s
  end.

Fixpoint rstrip (s : str) : str :=
  match s with
  | [] => []
  | c :: r =>
      match rstrip r with
      | [] => if is_space c then [] else [c]
      | r' => c :: r'
      end
  end.

(** [s.strip()] *)
Definition strip (s : str) : str := rstrip (lstrip s).

(** [sep.join(parts)] *)
Fixpoint join (sep : str) (parts : list str) : str :=
  match parts with
  | [] => []
  | [p] => p
  | p :: ps => p ++ sep ++ join sep ps
  end.

(** ** Exceptions *)

Inductive os_error_kind :=
  | FileNotFoundError
  | PermissionError
  | IsADirectoryError
  | OtherOSError.

(** What a call of the file system can raise: an [OSError] of some kind,
    with its text, or a [UnicodeError] when bytes and text do not convert. *)
Inductive io_exn :=
  | OSError (kind : os_error_kind) (message : str)
  | UnicodeError.

Inductive exn :=
  | KeyError (key : str)
  | ValueError
  | IOError (e : io_exn)
  | SystemExit (message : str).

Inductive result (A : Type) :=
  | Ok (a : A)
  | Raise (e : exn).
Arguments Ok {A} a.
Arguments Raise {A} e.

#[global] Instance result_ret : MRet result := fun _ a => Ok a.
#[global] Instance result_bind : MBind result := fun _ _ k m =>
  match m with
  | Ok a => k a
  | Raise e => Raise e
  end.

(** A [for] loop whose body may raise: the state is threaded through the
    items in order and the first exception ends the loop. *)
Fixpoint for_each {A S} (body : S -> A -> result S) (items : list A) (s : S)
  : result S :=
  match items with
  | [] => Ok s
  | x :: rest => s' ← body s x; for_each body rest s'
  end.

(** ** The section table *)

Definition SECTION_NAMES : gmap str str :=
  list_to_map
    [ (lit "quick recap", lit "quick recap");
      (lit "quick recap:", lit "quick recap");
      (lit "recap", lit "quick recap");
      (lit "recap:", lit "quick recap");
      (lit "next steps", lit "next steps");
      (lit "next steps:", lit "next steps");
      (lit "actions", lit "next steps");
      (lit "actions:", lit "next steps");
      (lit "summary", lit "summary");
      (lit "summary:", lit "summary") ].

Abbreviation SentenceList := (list (list N)) (only parsing).
Abbreviation ActionList := (list (list N * list N)) (only parsing).

Record ParsedSummary := {
  quick_recap : SentenceList;
  action_items : ActionList;
  summary_topics : list (str * str);
}.

(** ** Loading *)

(** The file system the script runs against: what [Path.read_text] and
    [Path.write_text] do on a path. *)
Record FileSystem := {
  read_text : str -> io_exn + str;
  write_text : str -> str -> option io_exn;
}.

Definition load_text (fs : FileSystem) (source : str) : result str :=
  match read_text fs source with
  | inr text => Ok text
  | inl (OSError FileNotFoundError _) =>
      Raise (SystemExit (lit "error: input file '" ++ source ++ lit "' not found"))
  | inl e => Raise (IOError e)
  end.

Definition normalise_line (line : str) : str := strip line.

(** ** The section splitter *)

(** Truthiness of the result of [dict.get]: [None] and the empty string are
    falsy. *)
Definition opt_truthy (o : option str) : bool :=
  match o with
  | Some s => truthy s
  | None => false
  end.

Section Splitter.
(** [str.lower] *)
Variable lower : str -> str.

Definition initial_sections : gmap str (list str) :=
  <[lit "quick recap" := []]>
    (<[lit "next steps" := []]> (<[lit "summary" := []]> ∅)).

(** One iteration of the loop of [split_sections] on the state
    [(sections, current_key)]. *)
Definition split_step (st : gmap str (list str) * option str) (raw_line : str)
  : result (gmap str (list str) * option str) :=
  let '(sections, current_key) := st in
  let line := normalise_line raw_line in
  if negb (truthy line) then Ok st
  else
    let key := SECTION_NAMES !! lower line in
    if opt_truthy key then Ok (sections, key)
    else
      match current_key with
      | None => Ok st
      | Some k =>
          match sections !! k with
          | Some content => Ok (<[k := content ++ [line]]> sections, current_key)
          | None => Raise (KeyError k)
          end
      end.

Definition split_sections (lines : list str) : result (gmap str (list str)) :=
  st ← for_each split_step lines (initial_sections, None);
  Ok st.1.
End Splitter.

(** ** The recap parser *)

(** Puts a character in front of the first piece of a list of pieces. *)
Definition push (c : char) (pieces : list str) : list str :=
  match pieces with
  | [] => [[c]]
  | p :: ps => (c :: p) :: ps
  end.

(** [SENTENCE_END_RE.split], for the pattern [(?<=[.!?])\s+].  The pattern
    matches at a position exactly when the character before it is one of
    [.!?] and the character at it is whitespace, and then takes the whole
    run of whitespace.  The scan goes left to right; [in_sep] says that the
    scan is inside a match, [prev_term] that the previous character is one
    of [.!?].  The pieces between the matches are returned, with an empty
    last piece when the string ends in a match. *)
Fixpoint re_split_scan (in_sep prev_term : bool) (s : str) : list str :=
  match s with
  | [] => [[]]
  | c :: r =>
      if is_space c then
        if in_sep then re_split_scan true false r
        else if prev_term then [] :: re_split_scan true false r
        else push c (re_split_scan false false r)
      else push c (re_split_scan false (is_terminal c) r)
  end.

Definition SENTENCE_END_RE_split (paragraph : str) : list str :=
  re_split_scan false false paragraph.

Definition sentences_from_paragraph (paragraph : str) : SentenceList :=
  let parts :=
    List.map strip (List.filter (fun part => truthy (strip part))
                                (SENTENCE_END_RE_split paragraph)) in
  match parts with
  | [] => [strip paragraph]
  | _ :: _ => parts
  end.

Definition parse_quick_recap (lines : list str) : SentenceList :=
  fold_left (fun sentences line => sentences ++ sentences_from_paragraph line)
            lines [].

(** ** The action-item parser *)

Definition colon : char := 58.

(** [sep in s] for a one-character [sep]. *)
Definition contains (sep : char) (s : str) : bool := existsb (N.eqb sep) s.

(** [s.split(sep, 1)] for a one-character [sep]: the parts before and after
    the first [sep], or the string alone when [sep] does not occur. *)
Fixpoint split_once (sep : char) (s : str) : list str :=
  match s with
  | [] => [[]]
  | c :: r => if c =? sep then [[]; r] else push c (split_once sep r)
  end.

Definition action_step (results : ActionList) (line : str) : result ActionList :=
  oa ← (if contains colon line then
          match split_once colon line with
          | [owner; action] => Ok (strip owner, strip action)
          | _ => Raise ValueError
          end
        else Ok ([], strip line));
  let '(owner, action) := oa in
  if negb (truthy action) then Ok results
  else Ok (results ++ [(str_or owner (lit "TBD"), action)]).

Definition parse_action_items (lines : list str) : result ActionList :=
  for_each action_step lines [].

(** ** The summary-topic parser *)

(** [re.search(r"[.!?]$", line)] finds a match: [$] matches at the end of
    the string and also just before a newline that ends the string. *)
Definition ends_sentence (line : str) : bool :=
  match rev line with
  | [] => false
  | c :: before =>
      is_terminal c
      || ((c =? 10) && match before with
                       | [] => false
                       | d :: _ => is_terminal d
                       end)
  end.

(** The loop state of [parse_summary_topics]. *)
Record topic_state := {
  topics : list (str * str);
  current_title : option str;
  current_body : list str;
}.

(** [current_title or current_body] as a condition. *)
Definition pending (st : topic_state) : bool :=
  opt_truthy (current_title st)
  || match current_body st with [] => false | _ :: _ => true end.

(** [current_title or "Summary"] *)
Definition pending_title (st : topic_state) : str :=
  if opt_truthy (current_title st) then default [] (current_title st)
  else lit "Summary".

(** The record appended by [topics.append(...)]. *)
Definition topic_record (st : topic_state) : str * str :=
  (pending_title st, strip (join (lit " ") (current_body st))).

Definition flush (st : topic_state) : list (str * str) :=
  if pending st then topics st ++ [topic_record st] else topics st.

Definition topic_step (st : topic_state) (line : str) : topic_state :=
  if negb (truthy line) then st
  else
    let is_title := negb (ends_sentence line) in
    if is_title then
      {| topics := flush st;
         current_title := Some (strip line);
         current_body := [] |}
    else
      {| topics := topics st;
         current_title := current_title st;
         current_body := current_body st ++ [strip line] |}.

Definition parse_summary_topics (lines : list str) : list (str * str) :=
  flush (fold_left topic_step lines
           {| topics := []; current_title := None; current_body := [] |}).

(** ** The whole parse *)

(** The characters at which [str.splitlines] ends a line. *)
Definition is_linebreak (c : char) : bool :=
  ((10 <=? c) && (c <=? 13)) || ((28 <=? c) && (c <=? 30))
  || (c =? 133) || (c =? 8232) || (c =? 8233).

(** [text.splitlines()]: a carriage return followed by a line feed is one
    line end, and no empty line follows a final line end. *)
Fixpoint splitlines (text : str) : list str :=
  match text with
  | [] => []
  | c :: r =>
      if is_linebreak c then
        [] :: match r with
              | d :: r' =>
                  if (c =? 13) && (d =? 10) then splitlines r' else splitlines r
              | [] => splitlines r
              end
      else push c (splitlines r)
  end.

(** [d[key]] *)
Definition getitem {V} (d : gmap str V) (key : str) : result V :=
  match d !! key with
  | Some v => Ok v
  | None => Raise (KeyError key)
  end.

Definition parse_summary (lower : str -> str) (text : str) : result ParsedSummary :=
  let lines := splitlines text in
  sections ← split_sections lower lines;
  recap_lines ← getitem sections (lit "quick recap");
  let quick_recap := parse_quick_recap recap_lines in
  step_lines ← getitem sections (lit "next steps");
  action_items ← parse_action_items step_lines;
  summary_lines ← getitem sections (lit "summary");
  let summary_topics := parse_summary_topics summary_lines in
  Ok {| quick_recap := quick_recap;
        action_items := action_items;
        summary_topics := summary_topics |}.

(** ** The renderer *)

Definition format_agenda (topics : list (str * str)) : list str :=
  match topics with
  | [] => [lit "- Updates from the supervisory team"]
  | _ :: _ => List.map (fun t => lit "- " ++ t.1) topics
  end.

Definition format_discussion_notes (quick_recap : SentenceList)
    (topics : list (str * str)) : list str :=
  let notes := [] in
  let notes :=
    match quick_recap with
    | [] => notes
    | [sentence] => notes ++ [lit "- Quick recap: " ++ sentence]
    | _ => notes ++ [lit "- Quick recap: " ++ join (lit "; ") quick_recap]
    end in
  let notes :=
    fold_left
      (fun notes t =>
         let content :=
           if truthy t.2 then t.2
           else lit "Discussion captured in Zoom summary." in
         notes ++ [lit "- " ++ t.1 ++ lit ": " ++ content])
      topics notes in
  match notes with
  | [] => [lit "- Discussion notes pending."]
  | _ :: _ => notes
  end.

Definition format_action_table (items : ActionList) : list str :=
  let rows :=
    [ lit "| Action | Owner | Due | Status |";
      lit "|--------|-------|-----|--------|" ] in
  match items with
  | [] => rows ++ [lit "| No action items recorded | - | - | - |"]
  | _ :: _ =>
      fold_left
        (fun rows item =>
           rows ++ [lit "| " ++ item.2 ++ lit " | " ++ item.1 ++ lit " |  | Open |"])
        items rows
  end.

(** The [argparse.Namespace] of the script.  Every option with a default is
    a string; [output] and [follow_up] are [None] when not given. *)
Record Namespace := {
  input : str;
  output : option str;
  date : str;
  time : str;
  connection : str;
  attendees : str;
  apologies : str;
  student : str;
  next_meeting : str;
  follow_up : option str;
}.

(** The namespace [parse_args] returns for a command line with the input
    path alone: every option has its default. *)
Definition default_args (path : str) : Namespace :=
  {| input := path;
     output := None;
     date := lit "YYYY-MM-DD";
     time := lit "TBD";
     connection := lit "TBD";
     attendees := [];
     apologies := [];
     student := [];
     next_meeting := lit "TBD";
     follow_up := None |}.

(** The em dash between the time and the connection. *)
Definition em_dash : char := 8212.

Definition time_label (args : Namespace) : str := str_or (time args) (lit "TBD").

Definition connection_label (args : Namespace) : str :=
  str_or (connection args) (lit "TBD").

(** The local [time_connection] of [build_markdown]. *)
Definition time_connection (args : Namespace) : str :=
  if truthy (connection_label args)
     && negb (bool_decide (connection_label args = lit "TBD"))
  then time_label args ++ [32; em_dash; 32] ++ connection_label args
  else time_label args.

(** The local [follow_up] of [build_markdown]. *)
Definition follow_up_text (args : Namespace) : str :=
  if opt_truthy (follow_up args) then default [] (follow_up args)
  else lit "- Note any reminders or checks before the next meeting.".

(** The list [parts] of [build_markdown]. *)
Definition markdown_parts (parsed : ParsedSummary) (args : Namespace) : list str :=
  let date_label := str_or (date args) (lit "YYYY-MM-DD") in
  let attendees := str_or (attendees args) (str_or (student args) (lit "TBD")) in
  let apologies := str_or (apologies args) (lit "None") in
  let agenda_lines := format_agenda (summary_topics parsed) in
  let discussion_lines :=
    format_discussion_notes (quick_recap parsed) (summary_topics parsed) in
  let action_table := format_action_table (action_items parsed) in
  let follow_up := follow_up_text args in
  [ lit "---";
    lit "## Meeting " ++ date_label;
    [];
    lit "- **Date:** " ++ date_label;
    lit "- **Time / connection:** " ++ time_connection args;
    lit "- **Next meeting:** " ++ str_or (next_meeting args) (lit "TBD");
    lit "- **Attendees:** " ++ attendees;
    lit "- **Apologies:** " ++ apologies;
    [];
    lit "### Agenda" ]
  ++ agenda_lines
  ++ [ []; lit "### Discussion notes" ]
  ++ discussion_lines
  ++ [ []; lit "### Action items" ]
  ++ action_table
  ++ [ []; lit "### Follow-up"; follow_up; [] ].

Definition build_markdown (parsed : ParsedSummary) (args : Namespace) : str :=
  join [10] (markdown_parts parsed args).

(** ** The entry point *)

(** Where [main] put the Markdown. *)
Inductive written :=
  | ToFile (path : str) (content : str)
  | ToStdout (content : str).

(** [main], from the parsed arguments on ([argparse] is not modelled; the
    write to standard output is taken to succeed). *)
Definition main (lower : str -> str) (fs : FileSystem) (args : Namespace)
  : result (N * written) :=
  source_text ← load_text fs (input args);
  parsed ← parse_summary lower source_text;
  let markdown := build_markdown parsed args in
  match output args with
  | Some path =>
      match write_text fs path markdown with
      | None => Ok (0, ToFile path markdown)
      | Some (OSError _ message) =>
          Raise (SystemExit (lit "error: failed to write output file: " ++ message))
      | Some e => Raise (IOError e)
      end
  | None => Ok (0, ToStdout markdown)
  end.

(** How the process ends: [raise SystemExit(main(...))] exits with the
    returned status; a [SystemExit] carrying a string prints it and exits
    with status 1; any other exception is uncaught, prints a traceback and
    exits with status 1. *)
Inductive termination :=
  | Exit (status : N) (out : written)
  | ExitWithMessage (message : str)
  | UncaughtException (e : exn).

Definition run (lower : str -> str) (fs : FileSystem) (args : Namespace)
  : termination :=
  match main lower fs args with
  | Ok (status, out) => Exit status out
  | Raise (SystemExit message) => ExitWithMessage message
  | Raise e => UncaughtException e
  end.


(** [str.lower] on ASCII text. *)
Definition ascii_lower (s : str) : str :=
  List.map (fun c => if (65 <=? c) && (c <=? 90) then c + 32 else c) s.


(** * Reference definitions

    The definitions named [spec_...] are written from the words of the
    specification, to be compared with the functions of the script above;
    the others are predicates and sample inputs the properties are stated
    with. *)

(** *** Trimming *)

(** The string does not start with whitespace. *)
Definition starts_clean (s : str) : bool :=
  match s with
  | [] => true
  | c :: _ => negb (is_space c)
  end.

(** *** Action items: one optional record per line *)

(** The position of the first colon of a line. *)
Definition first_colon (line : str) : option nat :=
  fst <$> list_find (λ c, c = colon) line.

(** Owner and action text of a line: split at the first colon when there is
    one, both parts trimmed; an empty owner becomes ["TBD"]; no record when
    the action text is empty. *)
Definition spec_action_record (line : str) : option (str * str) :=
  let owner_action :=
    match first_colon line with
    | Some i => (strip (take i line), strip (drop (S i) line))
    | None => ([], strip line)
    end in
  match owner_action.2 with
  | [] => None
  | _ :: _ =>
      Some (match owner_action.1 with
            | [] => lit "TBD"
            | _ :: _ => owner_action.1
            end,
            owner_action.2)
  end.

Definition spec_action_items (lines : list str) : list (str * str) :=
  omap spec_action_record lines.

(** *** Recap: the sentences of a line *)

(** The fragments of a line cut at every split point, a split point being
    a position that immediately follows one of [.!?] and is followed by
    whitespace.  [prev_term] says that the previous character is one of
    [.!?]. *)
Fixpoint cut_at_boundaries (prev_term : bool) (line : str) : list str :=
  match line with
  | [] => [[]]
  | c :: r =>
      if prev_term && is_space c
      then [] :: push c (cut_at_boundaries false r)
      else push c (cut_at_boundaries (is_terminal c) r)
  end.

(** Every fragment trimmed, the empty ones dropped; the whole trimmed line
    when no fragment is left. *)
Definition spec_sentences (line : str) : list str :=
  let fragments :=
    List.filter truthy (List.map strip (cut_at_boundaries false line)) in
  match fragments with
  | [] => [strip line]
  | _ :: _ => fragments
  end.

(** The string has a split point; [prev_term] as above. *)
Fixpoint has_boundary (prev_term : bool) (s : str) : bool :=
  match s with
  | [] => false
  | c :: r => (prev_term && is_space c) || has_boundary (is_terminal c) r
  end.

(** *** Sections: the lines of a bucket *)

(** The keyword table: the canonical key of a lowercased header line. *)
Definition spec_header (lowered : str) : option str :=
  if bool_decide (lowered ∈ [lit "recap"; lit "recap:";
                             lit "quick recap"; lit "quick recap:"])
  then Some (lit "quick recap")
  else if bool_decide (lowered ∈ [lit "next steps"; lit "next steps:";
                                  lit "actions"; lit "actions:"])
  then Some (lit "next steps")
  else if bool_decide (lowered ∈ [lit "summary"; lit "summary:"])
  then Some (lit "summary")
  else None.

(** The mapping with exactly the three canonical keys. *)
Definition three_sections (recap steps summary : list str)
  : gmap str (list str) :=
  <[lit "quick recap" := recap]>
    (<[lit "next steps" := steps]> (<[lit "summary" := summary]> ∅)).

(** A line as the buckets hold it: not empty and trimmed. *)
Definition bucket_line (line : str) : Prop :=
  truthy line = true /\ strip line = line.

Section SpecSplitter.
Variable lower : str -> str.

(** The raw line is one [split_sections] takes for a section header: not
    blank, and its trimmed lowercase text is a key of [SECTION_NAMES]. *)
Definition is_header (raw_line : str) : bool :=
  truthy (normalise_line raw_line)
  && opt_truthy (SECTION_NAMES !! lower (normalise_line raw_line)).

(** The lines that end up in the bucket of [key], [current] being the
    section in force before the first line: blank lines are skipped, a
    header switches the section and is not kept, another line is kept,
    trimmed, when the section in force is [key], and dropped when no section
    is in force. *)
Fixpoint spec_bucket (key : str) (current : option str) (lines : list str)
  : list str :=
  match lines with
  | [] => []
  | raw_line :: rest =>
      let line := strip raw_line in
      match line with
      | [] => spec_bucket key current rest
      | _ :: _ =>
          match spec_header (lower line) with
          | Some k => spec_bucket key (Some k) rest
          | None =>
              match current with
              | None => spec_bucket key None rest
              | Some k =>
                  (if bool_decide (k = key) then [line] else [])
                  ++ spec_bucket key current rest
              end
          end
      end
  end.
End SpecSplitter.

(** The section in force is unset or one of the canonical keys. *)
Definition key_ok (current : option str) : Prop :=
  match current with
  | None => True
  | Some k => k = lit "quick recap" \/ k = lit "next steps" \/ k = lit "summary"
  end.

(** *** Summary topics: titles and their bodies *)

(** The line ends with one of [.!?]: it is body text, not a title. *)
Definition ends_with_terminal (line : str) : bool :=
  match last line with
  | Some c => is_terminal c
  | None => false
  end.

(** The body of a record: the body lines joined with single spaces, and
    trimmed. *)
Definition spec_body (body_lines : list str) : str :=
  strip (join (lit " ") body_lines).

(** The records of the lines that follow a pending [title] with pending
    [body_lines]: a body line joins the pending body; a title line emits
    the pending record and becomes the pending title; the end of the lines
    emits the pending record. *)
Fixpoint spec_group (title : str) (body_lines : list str) (lines : list str)
  : list (str * str) :=
  match lines with
  | [] => [(title, spec_body body_lines)]
  | line :: rest =>
      if ends_with_terminal line
      then spec_group title (body_lines ++ [line]) rest
      else (title, spec_body body_lines) :: spec_group line [] rest
  end.

(** The records of a list of lines: body lines before any title go under
    the title ["Summary"]. *)
Definition spec_topics (lines : list str) : list (str * str) :=
  match lines with
  | [] => []
  | line :: rest =>
      if ends_with_terminal line
      then spec_group (lit "Summary") [line] rest
      else spec_group line [] rest
  end.

(** *** How the run ends *)





(** A file system whose every path exists but may not be read. *)
Definition fs_unreadable : FileSystem :=
  {| read_text := fun path =>
       inl (OSError PermissionError
              (lit "[Errno 13] Permission denied: '" ++ path ++ lit "'"));
     write_text := fun _ _ => None |}.


(** The parse of a text without content. *)
Definition empty_summary : ParsedSummary :=
  {| quick_recap := []; action_items := []; summary_topics := [] |}.

(** The Markdown a successful run put out. *)
Definition content (w : written) : str :=
  match w with
  | ToFile _ markdown => markdown
  | ToStdout markdown => markdown
  end.

(** *** Further predicates *)

(** The characters of a string that are not whitespace, in order. *)
Definition visible (s : str) : str :=
  List.filter (fun c => negb (is_space c)) s.

(** The string does not end with whitespace. *)
Definition ends_clean (s : str) : bool :=
  match last s with
  | Some c => negb (is_space c)
  | None => true
  end.

(** The string holds no character at which [str.splitlines] ends a line. *)
Definition no_linebreak (s : str) : bool :=
  forallb (fun c => negb (is_linebreak c)) s.

(** The line an action record comes back from: owner, colon, space, action
    text. *)
Definition action_line (record : str * str) : str :=
  record.1 ++ lit ": " ++ record.2.

(** An action record as the parser gives it: owner and action text are not
    empty and trimmed, and the owner holds no colon. *)
Definition action_record_ok (record : str * str) : Prop :=
  bucket_line record.1 /\ bucket_line record.2
  /\ contains colon record.1 = false.

(** A topic record as the parser gives it: the title is not empty and
    trimmed, the body is trimmed. *)
Definition topic_record_ok (record : str * str) : Prop :=
  bucket_line record.1 /\ strip record.2 = record.2.

(** The pending title of the loop state is trimmed. *)
Definition title_ok (st : topic_state) : Prop :=
  match current_title st with
  | Some t => strip t = t
  | None => True
  end.

(** The lines of the rendered section that come from one record. *)
Definition agenda_bullet (topic : str * str) : str := lit "- " ++ topic.1.

Definition topic_bullet (topic : str * str) : str :=
  lit "- " ++ topic.1 ++ lit ": "
  ++ (if truthy topic.2 then topic.2
      else lit "Discussion captured in Zoom summary.").

Definition action_row (item : str * str) : str :=
  lit "| " ++ item.2 ++ lit " | " ++ item.1 ++ lit " |  | Open |".

Definition recap_bullet (sentences : list str) : str :=
  lit "- Quick recap: " ++ join (lit "; ") sentences.

(** The local [date_label] of [build_markdown]. *)
Definition date_label (args : Namespace) : str :=
  str_or (date args) (lit "YYYY-MM-DD").

(** The parse holds only records in their normal form. *)
Definition parsed_ok (parsed : ParsedSummary) : Prop :=
  Forall bucket_line (quick_recap parsed)
  /\ Forall action_record_ok (action_items parsed)
  /\ Forall topic_record_ok (summary_topics parsed).

(** * Properties *)

Arguments is_space : simpl never.
Arguments is_terminal : simpl never.
Arguments is_linebreak : simpl never.
Arguments lit : simpl never.
Arguments colon : simpl never.

(** ** Trimming *)

Lemma rstrip_nil s : rstrip s = [] <-> forallb is_space s = true.
Proof.
  induction s as [|c s IH]; simpl; [done|].
  destruct (rstrip s) as [|d r'] eqn:E.
  - destruct (is_space c); simpl; [|split; discriminate].
    split; intros _; [by apply IH|done].
  - split; [discriminate|]. intros [_ H]%andb_prop.
    apply IH in H. discriminate.
Qed.

Lemma lstrip_nil s : lstrip s = [] <-> forallb is_space s = true.
Proof.
  induction s as [|c s IH]; simpl; [done|].
  destruct (is_space c); simpl; [done|]. split; discriminate.
Qed.

Lemma lstrip_forallb s : forallb is_space (lstrip s) = forallb is_space s.
Proof.
  induction s as [|c s IH]; simpl; [done|].
  destruct (is_space c) eqn:E; simpl; [done|]. by rewrite E.
Qed.

Lemma strip_nil s : strip s = [] <-> forallb is_space s = true.
Proof. unfold strip. by rewrite rstrip_nil, lstrip_forallb. Qed.

Lemma lstrip_clean s : starts_clean s = true -> lstrip s = s.
Proof. destruct s as [|c s]; simpl; [done|]. by destruct (is_space c). Qed.

Lemma lstrip_starts_clean s : starts_clean (lstrip s) = true.
Proof.
  induction s as [|c s IH]; simpl; [done|].
  destruct (is_space c) eqn:E; simpl; [done|]. by rewrite E.
Qed.

Lemma rstrip_starts_clean s : starts_clean s = true -> starts_clean (rstrip s) = true.
Proof.
  destruct s as [|c s]; simpl; [done|].
  destruct (rstrip s); [|done]. destruct (is_space c) eqn:E; simpl; [done|].
  by rewrite E.
Qed.

Lemma rstrip_idem s : rstrip (rstrip s) = rstrip s.
Proof.
  induction s as [|c s IH]; simpl; [done|].
  destruct (rstrip s) as [|d r'] eqn:E.
  - destruct (is_space c) eqn:Ec; simpl; [done|]. by rewrite Ec.
  - simpl in *. rewrite IH. done.
Qed.

Lemma strip_idem s : strip (strip s) = strip s.
Proof.
  unfold strip.
  rewrite (lstrip_clean (rstrip (lstrip s))).
  - apply rstrip_idem.
  - apply rstrip_starts_clean, lstrip_starts_clean.
Qed.

Lemma truthy_false (s : str) : truthy s = false <-> s = [].
Proof. by destruct s. Qed.

Lemma truthy_true (s : str) : truthy s = true <-> s <> [].
Proof. by destruct s. Qed.

(** ** The action-item parser *)

Lemma contains_cons sep c s :
  contains sep (c :: s) = (sep =? c) || contains sep s.
Proof. reflexivity. Qed.

Lemma split_once_cons sep c s :
  split_once sep (c :: s)
  = if c =? sep then [[]; s] else push c (split_once sep s).
Proof. reflexivity. Qed.

Lemma first_colon_cons c s :
  first_colon (c :: s)
  = if c =? colon then Some 0%nat else S <$> first_colon s.
Proof.
  unfold first_colon. cbn [list_find]. case_decide as Hc.
  - subst c. by rewrite N.eqb_refl.
  - apply N.eqb_neq in Hc. rewrite Hc.
    by destruct (list_find _ s) as [[i x]|].
Qed.

Lemma split_once_first_colon line :
  match first_colon line with
  | Some i =>
      contains colon line = true
      /\ split_once colon line = [take i line; drop (S i) line]
  | None =>
      contains colon line = false
  end.
Proof.
  induction line as [|c line IH]; [done|].
  rewrite first_colon_cons, contains_cons, split_once_cons, (N.eqb_sym colon c).
  destruct (c =? colon) eqn:Hc.
  - done.
  - destruct (first_colon line) as [i|]; cbn [fmap option_fmap option_map].
    + destruct IH as [-> ->]. done.
    + by rewrite IH.
Qed.

(** What one iteration of the loop appends. *)
Lemma action_step_spec results line :
  action_step results line
  = Ok (results ++ option_list (spec_action_record line)).
Proof.
  unfold action_step, spec_action_record.
  pose proof (split_once_first_colon line) as H.
  destruct (first_colon line) as [i|].
  - destruct H as [-> ->]. simpl.
    destruct (strip (drop (S i) line)) as [|a action]; simpl.
    + by rewrite app_nil_r.
    + by destruct (strip (take i line)).
  - rewrite H. simpl.
    destruct (strip line) as [|a action]; simpl; [by rewrite app_nil_r|done].
Qed.

Lemma for_each_action_step lines results :
  for_each action_step lines results
  = Ok (results ++ spec_action_items lines).
Proof.
  revert results. induction lines as [|line lines IH]; intros results; simpl.
  - by rewrite app_nil_r.
  - rewrite action_step_spec. simpl. rewrite IH. unfold spec_action_items. simpl.
    destruct (spec_action_record line); simpl; [|by rewrite app_nil_r].
    by rewrite <- app_assoc.
Qed.

Lemma parse_action_items_loop lines :
  parse_action_items lines = Ok (spec_action_items lines).
Proof. unfold parse_action_items. by rewrite for_each_action_step. Qed.

(** C1. The action-item parser returns, for every list of lines and in
    line order, the record of each line that has one: a line with a colon
    is split at its first colon into the trimmed owner and the trimmed
    action text, a line without colon has an empty owner and its trimmed
    self as action text, an empty owner is replaced by "TBD", and a line
    whose action text is empty gives no record.  "Alice: Send report" gives
    ("Alice", "Send report"), "Just do it" gives ("TBD", "Just do it") and
    "Alice:" gives nothing. *)
Theorem parse_action_items_spec :
  (forall lines, parse_action_items lines = Ok (spec_action_items lines))
  /\ parse_action_items [lit "Alice: Send report"]
     = Ok [(lit "Alice", lit "Send report")]
  /\ parse_action_items [lit "Just do it"] = Ok [(lit "TBD", lit "Just do it")]
  /\ parse_action_items [lit "Alice:"] = Ok []
  /\ parse_action_items [lit "a:b:c"] = Ok [(lit "a", lit "b:c")].
Proof.
  split; [exact parse_action_items_loop|by vm_compute].
Qed.

(** ** The recap parser *)

Lemma space_not_terminal c : is_space c = true -> is_terminal c = false.
Proof.
  intros Hs. unfold is_terminal.
  destruct (c =? 46) eqn:E1; [apply N.eqb_eq in E1; by subst|].
  destruct (c =? 33) eqn:E2; [apply N.eqb_eq in E2; by subst|].
  destruct (c =? 63) eqn:E3; [apply N.eqb_eq in E3; by subst|].
  done.
Qed.

Lemma lstrip_space c s : is_space c = true -> lstrip (c :: s) = lstrip s.
Proof. intros H. simpl. by rewrite H. Qed.

(** The regex split and the cut at split points differ only by the
    whitespace in front of the pieces after the first. *)
Lemma scan_cut s :
  (forall pt, exists h t t',
      re_split_scan false pt s = h :: t
      /\ cut_at_boundaries pt s = h :: t'
      /\ List.map lstrip t = List.map lstrip t')
  /\ (exists h h' t t',
      re_split_scan true false s = h :: t
      /\ cut_at_boundaries false s = h' :: t'
      /\ lstrip h = lstrip h'
      /\ List.map lstrip t = List.map lstrip t').
Proof.
  induction s as [|c r [IHout IHin]]; simpl.
  - split; [intros pt|]; by repeat eexists.
  - destruct (is_space c) eqn:Hc.
    + rewrite (space_not_terminal c Hc).
      destruct IHin as (h & h' & t & t' & E1 & E2 & Hh & Ht).
      destruct (IHout false) as (g & u & u' & F1 & F2 & Hu).
      split.
      * intros [|]; simpl.
        -- rewrite E1, E2. simpl. exists [], (h :: t), ((c :: h') :: t').
           repeat split. simpl. rewrite Hc. by f_equal.
        -- rewrite F1, F2. simpl. by exists (c :: g), u, u'.
      * rewrite E1, F2. simpl. rewrite E2 in F2. injection F2 as <- <-.
        exists h, (c :: h'), t, t'. repeat split; [|done].
        by rewrite lstrip_space.
    + destruct (IHout (is_terminal c)) as (g & u & u' & F1 & F2 & Hu).
      split.
      * intros pt. rewrite andb_false_r, F1, F2. simpl.
        by exists (c :: g), u, u'.
      * rewrite F1, F2. simpl. by exists (c :: g), (c :: g), u, u'.
Qed.

Lemma map_strip_scan_cut s :
  List.map strip (SENTENCE_END_RE_split s)
  = List.map strip (cut_at_boundaries false s).
Proof.
  destruct (scan_cut s) as [H _].
  destruct (H false) as (h & t & t' & E1 & E2 & Ht).
  unfold SENTENCE_END_RE_split. rewrite E1, E2. simpl. f_equal.
  unfold strip.
  rewrite <- (List.map_map lstrip rstrip t), <- (List.map_map lstrip rstrip t').
  by rewrite Ht.
Qed.

Lemma map_filter_strip (l : list str) :
  List.map strip (List.filter (fun part => truthy (strip part)) l)
  = List.filter truthy (List.map strip l).
Proof.
  induction l as [|p l IH]; simpl; [done|].
  destruct (truthy (strip p)); simpl; by rewrite IH.
Qed.

Lemma sentences_from_paragraph_spec line :
  sentences_from_paragraph line = spec_sentences line.
Proof.
  unfold sentences_from_paragraph, spec_sentences.
  by rewrite map_filter_strip, map_strip_scan_cut.
Qed.

Lemma fold_left_extend {A B} (f : A -> list B) (l : list A) (acc : list B) :
  fold_left (fun acc x => acc ++ f x) l acc = acc ++ concat (List.map f l).
Proof.
  revert acc. induction l as [|x l IH]; intros acc; simpl.
  - by rewrite app_nil_r.
  - by rewrite IH, app_assoc.
Qed.

(** C3. The sentences of a line are its fragments at the split points (the
    positions just after one of [.!?] and before whitespace), trimmed, with
    the empty ones dropped, or the trimmed line alone when none is left;
    the recap parser returns the sentences of all lines, in line order. *)
Theorem parse_quick_recap_spec :
  (forall line, sentences_from_paragraph line = spec_sentences line)
  /\ (forall lines,
        parse_quick_recap lines
        = concat (List.map sentences_from_paragraph lines))
  /\ parse_quick_recap [lit "We met.  All fine! Next?"; lit "No end"]
     = [lit "We met."; lit "All fine!"; lit "Next?"; lit "No end"].
Proof.
  split; [exact sentences_from_paragraph_spec|].
  split; [|by vm_compute].
  intros lines. unfold parse_quick_recap. by rewrite fold_left_extend.
Qed.

(** *** Pieces without split point *)

Lemma no_boundary_scan s :
  (forall pt, exists h t,
      re_split_scan false pt s = h :: t
      /\ has_boundary pt h = false
      /\ Forall (fun p => has_boundary false p = false) t)
  /\ Forall (fun p => has_boundary false p = false) (re_split_scan true false s).
Proof.
  induction s as [|c r [IHout IHin]]; simpl.
  - split; [intros pt; by exists [], []|]. by repeat constructor.
  - destruct (is_space c) eqn:Hc.
    + split; [|done]. intros [|].
      * exists [], (re_split_scan true false r). by repeat split.
      * destruct (IHout false) as (h & t & -> & Hh & Ht). simpl.
        exists (c :: h), t. repeat split; [|done]. simpl.
        by rewrite (space_not_terminal c Hc).
    + destruct (IHout (is_terminal c)) as (h & t & -> & Hh & Ht). simpl.
      split.
      * intros pt. exists (c :: h), t. repeat split; [|done]. simpl.
        by rewrite Hc, andb_false_r.
      * constructor; [|done]. by simpl.
Qed.

Lemma no_boundary_pieces s :
  Forall (fun p => has_boundary false p = false) (SENTENCE_END_RE_split s).
Proof.
  destruct (no_boundary_scan s) as [H _].
  destruct (H false) as (h & t & E & Hh & Ht).
  unfold SENTENCE_END_RE_split. rewrite E. by constructor.
Qed.

(** A string without split point is its own single piece. *)
Lemma scan_no_boundary s pt :
  has_boundary pt s = false -> re_split_scan false pt s = [s].
Proof.
  revert pt. induction s as [|c r IH]; intros pt; simpl; [done|].
  intros [H1 H2]%orb_false_elim.
  destruct (is_space c) eqn:Hc.
  - rewrite andb_true_r in H1. subst pt.
    rewrite (space_not_terminal c Hc) in H2. by rewrite (IH _ H2).
  - by rewrite (IH _ H2).
Qed.

Lemma has_boundary_lstrip s :
  has_boundary false s = false -> has_boundary false (lstrip s) = false.
Proof.
  induction s as [|c r IH]; simpl; [done|].
  destruct (is_space c) eqn:Hc; [|done].
  rewrite (space_not_terminal c Hc). exact IH.
Qed.

Lemma has_boundary_rstrip s pt :
  has_boundary pt s = false -> has_boundary pt (rstrip s) = false.
Proof.
  revert pt. induction s as [|c r IH]; intros pt; simpl; [done|].
  intros [H1 H2]%orb_false_elim.
  specialize (IH _ H2).
  destruct (rstrip r) as [|d r'].
  - destruct (is_space c) eqn:Hc; simpl; [done|].
    by rewrite Hc, andb_false_r.
  - change (has_boundary pt (c :: d :: r'))
      with ((pt && is_space c) || has_boundary (is_terminal c) (d :: r')).
    by rewrite H1, IH.
Qed.

Lemma has_boundary_strip s :
  has_boundary false s = false -> has_boundary false (strip s) = false.
Proof. intros H. by apply has_boundary_rstrip, has_boundary_lstrip. Qed.

(** A trimmed, non-empty string without split point is its own only
    sentence. *)
Lemma sentences_of_sentence s :
  strip s = s -> s <> [] -> has_boundary false s = false ->
  sentences_from_paragraph s = [s].
Proof.
  intros Hs Hne Hb. unfold sentences_from_paragraph, SENTENCE_END_RE_split.
  rewrite (scan_no_boundary _ _ Hb). simpl. rewrite Hs.
  destruct (truthy s) eqn:E; simpl; by rewrite ?Hs.
Qed.

(** *** Whitespace *)

Lemma scan_spaces s in_sep pt :
  forallb is_space s = true ->
  Forall (fun p => forallb is_space p = true) (re_split_scan in_sep pt s).
Proof.
  revert in_sep pt. induction s as [|c r IH]; intros in_sep pt; simpl.
  - by repeat constructor.
  - intros [Hc Hr]%andb_prop. rewrite Hc.
    destruct in_sep; [by apply IH|].
    destruct pt; [constructor; [done|by apply IH]|].
    specialize (IH false false Hr).
    destruct (re_split_scan false false r) as [|h t]; simpl.
    + repeat constructor. simpl. by rewrite Hc.
    + inversion IH; subst. constructor; [|done]. simpl. by rewrite Hc.
Qed.

Lemma scan_spaces_inv s in_sep pt :
  Forall (fun p => forallb is_space p = true) (re_split_scan in_sep pt s) ->
  forallb is_space s = true.
Proof.
  revert in_sep pt. induction s as [|c r IH]; intros in_sep pt; simpl; [done|].
  destruct (is_space c) eqn:Hc; simpl.
  - destruct in_sep; [apply IH|]. destruct pt.
    + intros H. inversion H; subst. by eapply IH.
    + intros H. apply (IH false false).
      destruct (re_split_scan false false r) as [|h t]; [done|].
      simpl in H. inversion H as [|? ? Hh Ht]; subst. constructor; [|done].
      simpl in Hh. by rewrite Hc in Hh.
  - intros H. exfalso.
    destruct (re_split_scan false (is_terminal c) r) as [|h t];
      simpl in H; inversion H as [|? ? Hh Ht]; subst;
      simpl in Hh; by rewrite Hc in Hh.
Qed.

Lemma filter_strip_nil (l : list str) :
  List.filter (fun part => truthy (strip part)) l = []
  <-> Forall (fun p => forallb is_space p = true) l.
Proof.
  induction l as [|p l IH]; simpl; [done|].
  destruct (truthy (strip p)) eqn:E.
  - split; [discriminate|]. intros H. inversion H as [|? ? Hp _]; subst.
    apply strip_nil in Hp. rewrite Hp in E. discriminate.
  - apply truthy_false, strip_nil in E. rewrite IH.
    split; [by constructor|]. intros H. by inversion H.
Qed.

Lemma sentences_spaces p :
  forallb is_space p = true -> sentences_from_paragraph p = [[]].
Proof.
  intros Hp. unfold sentences_from_paragraph.
  assert (List.filter (fun part => truthy (strip part)) (SENTENCE_END_RE_split p)
          = []) as ->.
  { apply filter_strip_nil. by apply scan_spaces. }
  simpl. f_equal. by apply strip_nil.
Qed.

(** C10. The sentence splitter returns at least one sentence for every
    string, and the single empty sentence for a string of whitespace (the
    empty string included); so the recap parser returns empty sentences for
    blank lines. *)
Theorem sentences_from_paragraph_nonempty (paragraph : str) :
  (exists s rest, sentences_from_paragraph paragraph = s :: rest)
  /\ (forallb is_space paragraph = true ->
      sentences_from_paragraph paragraph = [[]]
      /\ parse_quick_recap [paragraph] = [[]]).
Proof.
  split.
  - unfold sentences_from_paragraph.
    destruct (List.map strip _) as [|s rest]; by eauto.
  - intros Hp. unfold parse_quick_recap. simpl.
    by rewrite (sentences_spaces _ Hp).
Qed.

Lemma sentences_from_paragraph_nonempty_witness :
  forallb is_space (lit "  ") = true
  /\ sentences_from_paragraph (lit "  ") = [[]]
  /\ parse_quick_recap [lit "  "] = [[]]
  /\ sentences_from_paragraph [] = [[]].
Proof.
  split; [reflexivity|].
  split; [apply (sentences_from_paragraph_nonempty (lit "  ")); reflexivity|].
  split; [apply (sentences_from_paragraph_nonempty (lit "  ")); reflexivity|].
  apply (sentences_from_paragraph_nonempty []); reflexivity.
Defined.

(** C7. Splitting is idempotent: every sentence the splitter returns for a
    string is split into exactly itself. *)
Theorem sentences_from_paragraph_idempotent (paragraph sentence : str) :
  In sentence (sentences_from_paragraph paragraph) ->
  sentences_from_paragraph sentence = [sentence].
Proof.
  unfold sentences_from_paragraph at 1.
  destruct (List.map strip _) as [|s0 rest] eqn:E.
  - intros [<-|[]].
    apply (f_equal (@length _)) in E. rewrite length_map in E.
    apply nil_length_inv, filter_strip_nil, scan_spaces_inv in E.
    apply strip_nil in E as ->. reflexivity.
  - rewrite <- E. intros (piece & <- & [Hin Ht]%filter_In)%in_map_iff.
    apply sentences_of_sentence.
    + apply strip_idem.
    + by apply truthy_true.
    + apply has_boundary_strip.
      pose proof (no_boundary_pieces paragraph) as H.
      rewrite Forall_forall in H. apply H. by apply list_elem_of_In.
Qed.

Lemma sentences_from_paragraph_idempotent_witness :
  In (lit "All fine!") (sentences_from_paragraph (lit " We met.  All fine! Next"))
  /\ sentences_from_paragraph (lit "All fine!") = [lit "All fine!"].
Proof.
  assert (In (lit "All fine!")
             (sentences_from_paragraph (lit " We met.  All fine! Next"))) as H.
  { vm_compute. right. left. reflexivity. }
  split; [exact H|].
  exact (sentences_from_paragraph_idempotent _ _ H).
Defined.

(** ** The section splitter *)

(** The dictionary [SECTION_NAMES] is the keyword table, and all its values
    are truthy. *)
Lemma SECTION_NAMES_lookup x :
  SECTION_NAMES !! x = spec_header x
  /\ opt_truthy (SECTION_NAMES !! x) = bool_decide (is_Some (spec_header x)).
Proof.
  unfold SECTION_NAMES. cbn [list_to_map foldr curry fst snd].
  rewrite !lookup_insert, lookup_empty.
  repeat (case_decide; [subst x; by vm_compute|]).
  assert (spec_header x = None) as ->; [|done].
  unfold spec_header.
  rewrite !bool_decide_eq_false_2; [done| | |];
    intros Hin;
    repeat (apply elem_of_cons in Hin as [?|Hin]; [congruence|]);
    by apply elem_of_nil in Hin.
Qed.

Lemma three_sections_lookup a b c k :
  three_sections a b c !! k
  = if bool_decide (k = lit "quick recap") then Some a
    else if bool_decide (k = lit "next steps") then Some b
    else if bool_decide (k = lit "summary") then Some c
    else None.
Proof.
  unfold three_sections. rewrite !lookup_insert, lookup_empty.
  repeat case_decide; repeat case_bool_decide; congruence.
Qed.

Lemma three_sections_insert a b c k x :
  <[k := x]> (three_sections a b c)
  = if bool_decide (k = lit "quick recap") then three_sections x b c
    else if bool_decide (k = lit "next steps") then three_sections a x c
    else if bool_decide (k = lit "summary") then three_sections a b x
    else <[k := x]> (three_sections a b c).
Proof.
  apply map_eq. intros j.
  repeat case_bool_decide; subst;
    rewrite ?lookup_insert, !three_sections_lookup;
    repeat case_decide; repeat case_bool_decide; subst; try congruence;
    by vm_compute in *.
Qed.

Lemma initial_sections_three : initial_sections = three_sections [] [] [].
Proof. reflexivity. Qed.

Lemma spec_header_ok x : key_ok (spec_header x).
Proof. unfold spec_header. repeat case_bool_decide; simpl; auto. Qed.

Section SplitterProperties.
Variable lower : str -> str.

Lemma split_step_eq sections current raw :
  split_step lower (sections, current) raw
  = let line := strip raw in
    if negb (truthy line) then Ok (sections, current)
    else if opt_truthy (SECTION_NAMES !! lower line)
    then Ok (sections, SECTION_NAMES !! lower line)
    else match current with
         | None => Ok (sections, current)
         | Some k =>
             match sections !! k with
             | Some content => Ok (<[k := content ++ [line]]> sections, current)
             | None => Raise (KeyError k)
             end
         end.
Proof. reflexivity. Qed.

(** The loop of [split_sections], from any state with the three keys: every
    bucket grows by the lines the reference definition gives it. *)
Lemma for_each_split_step lines : forall a b c current,
  key_ok current ->
  exists current',
    for_each (split_step lower) lines (three_sections a b c, current)
    = Ok (three_sections
            (a ++ spec_bucket lower (lit "quick recap") current lines)
            (b ++ spec_bucket lower (lit "next steps") current lines)
            (c ++ spec_bucket lower (lit "summary") current lines),
          current').
Proof.
  induction lines as [|raw lines IH]; intros a b c current Hok.
  { exists current. simpl. by rewrite !app_nil_r. }
  cbn [for_each spec_bucket]. rewrite split_step_eq. cbv zeta.
  destruct (strip raw) as [|ch line'] eqn:Eline.
  { simpl. by apply IH. }
  cbn [truthy negb].
  destruct (SECTION_NAMES_lookup (lower (ch :: line'))) as [E1 E2].
  rewrite E2, E1. clear E1 E2.
  destruct (spec_header (lower (ch :: line'))) as [k|] eqn:Eh.
  { simpl. apply IH. rewrite <- Eh. apply spec_header_ok. }
  simpl. destruct current as [k|]; [|simpl; by apply IH].
  rewrite three_sections_lookup.
  destruct Hok as [->|[->| ->]]; simpl;
    rewrite three_sections_insert; simpl;
    (edestruct IH as [current' ->]; [simpl; eauto|]);
    exists current'; by rewrite <- ?app_assoc, ?app_nil_r.
Qed.

(** The buckets [split_sections] returns. *)
Lemma split_sections_buckets lines :
  split_sections lower lines
  = Ok (three_sections (spec_bucket lower (lit "quick recap") None lines)
                       (spec_bucket lower (lit "next steps") None lines)
                       (spec_bucket lower (lit "summary") None lines)).
Proof.
  unfold split_sections. rewrite initial_sections_three.
  destruct (for_each_split_step lines [] [] [] None I) as [current' ->].
  reflexivity.
Qed.

Lemma spec_bucket_lines key lines : forall current,
  Forall bucket_line (spec_bucket lower key current lines).
Proof.
  induction lines as [|raw lines IH]; intros current; simpl; [done|].
  destruct (strip raw) as [|ch line'] eqn:Eline; [done|].
  destruct (spec_header _); [done|].
  destruct current as [k|]; [|done].
  case_bool_decide; simpl; [|done].
  constructor; [|done]. split; [done|].
  rewrite <- Eline. apply strip_idem.
Qed.

Lemma spec_bucket_no_header key lines :
  existsb (is_header lower) lines = false ->
  spec_bucket lower key None lines = [].
Proof.
  induction lines as [|raw lines IH]; simpl; [done|].
  intros [Hh Hrest]%orb_false_elim. unfold is_header, normalise_line in Hh.
  destruct (strip raw) as [|ch line'] eqn:Eline; [by apply IH|].
  rewrite (proj2 (SECTION_NAMES_lookup _)) in Hh.
  destruct (spec_header _); [done|by apply IH].
Qed.

(** C4. The section splitter puts in each of the three buckets exactly the
    lines the reference definition gives it: blank lines are skipped, a
    line whose trimmed lowercase text is a header keyword switches the
    section and is not stored, a line met before any header is dropped, and
    every other line is appended, trimmed, to the bucket of the last header
    seen. *)
Theorem split_sections_spec :
  (forall lines,
     split_sections lower lines
     = Ok (three_sections (spec_bucket lower (lit "quick recap") None lines)
                          (spec_bucket lower (lit "next steps") None lines)
                          (spec_bucket lower (lit "summary") None lines)))
  /\ (forall line, SECTION_NAMES !! lower line = spec_header (lower line)).
Proof.
  split; [exact split_sections_buckets|].
  intros line. apply SECTION_NAMES_lookup.
Qed.

(** C9. The section splitter returns, for every list of lines, a mapping
    whose keys are exactly "quick recap", "next steps" and "summary"; every
    line of every bucket is non-empty and trimmed; for the empty input all
    three buckets are empty. *)
Theorem split_sections_keys (lines : list str) :
  exists recap steps summary,
    split_sections lower lines = Ok (three_sections recap steps summary)
    /\ dom (three_sections recap steps summary)
       = {[lit "quick recap"; lit "next steps"; lit "summary"]}
    /\ Forall bucket_line recap
    /\ Forall bucket_line steps
    /\ Forall bucket_line summary
    /\ split_sections lower [] = Ok (three_sections [] [] []).
Proof.
  eexists _, _, _. split; [apply split_sections_buckets|].
  split.
  { unfold three_sections. rewrite !dom_insert_L, dom_empty_L. set_solver. }
  repeat split; try apply spec_bucket_lines.
Qed.
End SplitterProperties.

Example split_sections_ex :
  split_sections ascii_lower
    [lit "intro"; lit " Quick Recap "; lit " We met. "; [];
     lit "ACTIONS:"; lit "Bob: x"; lit "recap"; lit "Again."]
  = Ok (three_sections [lit "We met."; lit "Again."] [lit "Bob: x"] []).
Proof. by vm_compute. Qed.

(** ** The summary-topic parser *)

Lemma rstrip_last s c : last (rstrip s) = Some c -> is_space c = false.
Proof.
  induction s as [|c0 r IH]; simpl; [done|].
  destruct (rstrip r) as [|d r'] eqn:E.
  - destruct (is_space c0) eqn:Hc; simpl; [done|]. by intros [= <-].
  - exact IH.
Qed.

Lemma strip_fixed_rstrip s : strip s = s -> rstrip s = s.
Proof. intros H. rewrite <- H at 1. unfold strip. rewrite rstrip_idem. exact H. Qed.

(** On a trimmed line the regex [[.!?]$] looks at the last character
    only. *)
Lemma ends_sentence_trimmed line :
  strip line = line -> ends_sentence line = ends_with_terminal line.
Proof.
  intros H%strip_fixed_rstrip. unfold ends_sentence, ends_with_terminal.
  destruct (rev line) as [|c before] eqn:E.
  - apply (f_equal (@rev _)) in E. rewrite rev_involutive in E. by subst.
  - apply (f_equal (@rev _)) in E. rewrite rev_involutive in E. simpl in E.
    subst line. rewrite last_snoc.
    assert (is_space c = false) as Hc.
    { apply (rstrip_last (rev before ++ [c])). by rewrite H, last_snoc. }
    destruct (c =? 10) eqn:E10; [|by rewrite orb_false_r].
    apply N.eqb_eq in E10. by subst c.
Qed.

(** The loop of [parse_summary_topics] from a state with a pending
    record. *)
Lemma fold_topic_step lines : forall st,
  Forall bucket_line lines ->
  pending st = true ->
  flush (fold_left topic_step lines st)
  = topics st ++ spec_group (pending_title st) (current_body st) lines.
Proof.
  induction lines as [|line rest IH]; intros st Hlines Hp; simpl.
  - unfold flush. by rewrite Hp.
  - inversion Hlines as [|? ? [Hne Htrim] Hrest]; subst.
    unfold topic_step. rewrite Hne. cbn [negb].
    rewrite (ends_sentence_trimmed _ Htrim), Htrim.
    destruct (ends_with_terminal line); cbn [negb].
    + rewrite IH; [done|done|].
      unfold pending. cbn [current_body current_title].
      destruct (current_body st); simpl; by rewrite orb_true_r.
    + rewrite IH; [|done|unfold pending; simpl; by rewrite Hne].
      cbn [topics current_body]. unfold flush. rewrite Hp.
      unfold pending_title at 1. cbn [current_title opt_truthy default].
      rewrite Hne, <- app_assoc. reflexivity.
Qed.

Lemma parse_summary_topics_bucket lines :
  Forall bucket_line lines -> parse_summary_topics lines = spec_topics lines.
Proof.
  unfold parse_summary_topics. destruct lines as [|line rest]; [done|].
  intros Hlines. inversion Hlines as [|? ? [Hne Htrim] Hrest]; subst.
  cbn [fold_left spec_topics]. unfold topic_step at 2. rewrite Hne. cbn [negb].
  rewrite (ends_sentence_trimmed _ Htrim), Htrim.
  destruct (ends_with_terminal line); cbn [negb].
  - by rewrite fold_topic_step.
  - rewrite fold_topic_step; [|done|unfold pending; simpl; by rewrite Hne].
    unfold pending_title. simpl. by rewrite Hne.
Qed.

Lemma spec_group_head title body_lines lines :
  exists body more, spec_group title body_lines lines = (title, body) :: more.
Proof.
  revert body_lines. induction lines as [|line rest IH]; intros body_lines; simpl.
  - by eexists _, _.
  - destruct (ends_with_terminal line); [apply IH|by eexists _, _].
Qed.

(** C2. On the lines of a bucket (non-empty, trimmed) the summary-topic
    parser takes a line for a title exactly when it does not end with one
    of [.!?], and returns the records of the reference definition: a record
    for the pending title and body at every new title and one at the end,
    the body lines joined with single spaces and trimmed; body lines before
    any title go under the title "Summary".  The lines "Budget", "Discussed
    funding.", "Discussed timeline.", "Risks", "None noted." give the two
    records ("Budget", "Discussed funding. Discussed timeline.") and
    ("Risks", "None noted."). *)
Theorem parse_summary_topics_spec (lines : list str) :
  Forall bucket_line lines ->
  parse_summary_topics lines = spec_topics lines
  /\ Forall (fun line => ends_sentence line = ends_with_terminal line) lines
  /\ (forall line rest,
        lines = line :: rest -> ends_with_terminal line = true ->
        exists body more,
          parse_summary_topics lines = (lit "Summary", body) :: more)
  /\ parse_summary_topics
       [lit "Budget"; lit "Discussed funding."; lit "Discussed timeline.";
        lit "Risks"; lit "None noted."]
     = [(lit "Budget", lit "Discussed funding. Discussed timeline.");
        (lit "Risks", lit "None noted.")].
Proof.
  intros Hlines. split; [by apply parse_summary_topics_bucket|].
  split.
  { eapply Forall_impl; [exact Hlines|].
    intros line [_ Htrim]. by apply ends_sentence_trimmed. }
  split; [|by vm_compute].
  intros line rest -> Hend. rewrite parse_summary_topics_bucket by done.
  simpl. rewrite Hend. apply spec_group_head.
Qed.

Lemma parse_summary_topics_spec_witness :
  Forall bucket_line [lit "Noted."; lit "Budget"; lit "Agreed!"]
  /\ parse_summary_topics [lit "Noted."; lit "Budget"; lit "Agreed!"]
     = [(lit "Summary", lit "Noted."); (lit "Budget", lit "Agreed!")]
  /\ exists body more,
       parse_summary_topics [lit "Noted."; lit "Budget"; lit "Agreed!"]
       = (lit "Summary", body) :: more.
Proof.
  assert (Forall bucket_line [lit "Noted."; lit "Budget"; lit "Agreed!"]) as H.
  { repeat constructor. }
  split; [exact H|]. split.
  - rewrite (proj1 (parse_summary_topics_spec _ H)). reflexivity.
  - exact (proj1 (proj2 (proj2 (parse_summary_topics_spec _ H)))
             _ _ eq_refl eq_refl).
Defined.

(** ** The renderer *)

(** C8. The time/connection line of the rendered section is the time
    (or "TBD" when the time is empty) followed by " — " and the connection
    when the connection is not empty and not "TBD", and the time alone
    otherwise; with the default connection "TBD" of an omitted
    [--connection] it is the time alone. *)
Theorem time_connection_spec (parsed : ParsedSummary) (args : Namespace) :
  markdown_parts parsed args !! 4%nat
  = Some (lit "- **Time / connection:** " ++ time_connection args)
  /\ time_connection args
     = (if bool_decide (connection args <> [] /\ connection args <> lit "TBD")
        then time_label args ++ lit " " ++ [em_dash] ++ lit " " ++ connection args
        else time_label args)
  /\ time_label args
     = (if bool_decide (time args = []) then lit "TBD" else time args)
  /\ (connection args = lit "TBD" -> time_connection args = time_label args).
Proof.
  split; [reflexivity|].
  assert (time_connection args
          = (if bool_decide (connection args <> [] /\ connection args <> lit "TBD")
             then time_label args ++ lit " " ++ [em_dash] ++ lit " "
                  ++ connection args
             else time_label args)) as Htc.
  { unfold time_connection, connection_label, str_or.
    change (lit " ") with [32].
    destruct (connection args) as [|c cs] eqn:E; cbn [truthy andb app].
    - rewrite (bool_decide_eq_false_2 ([] <> [] /\ _)); [done|]. by intros [? _].
    - case_bool_decide as H1; case_bool_decide as H2; cbn [negb]; try done.
      + destruct H2 as [_ H2]. by rewrite H1 in H2.
      + destruct H2. by split. }
  split; [exact Htc|]. split.
  - unfold time_label, str_or. by destruct (time args).
  - intros Hc. rewrite Htc, bool_decide_eq_false_2; [done|]. by intros [_ ?].
Qed.

Lemma time_connection_spec_witness :
  connection (default_args (lit "summary.txt")) = lit "TBD"
  /\ time_connection (default_args (lit "summary.txt")) = lit "TBD".
Proof.
  split; [reflexivity|].
  rewrite (proj2 (proj2 (proj2 (time_connection_spec
             empty_summary (default_args (lit "summary.txt"))))) eq_refl).
  reflexivity.
Defined.

Example time_connection_ex :
  time_connection
    {| input := lit "s.txt"; output := None; date := lit "2025-10-27";
       time := lit "14:00 SAST"; connection := lit "Teams";
       attendees := []; apologies := []; student := [];
       next_meeting := lit "TBD"; follow_up := None |}
  = lit "14:00 SAST " ++ [em_dash] ++ lit " Teams".
Proof. reflexivity. Qed.

(** ** The whole pipeline *)

Section Pipeline.
Variable lower : str -> str.

Lemma getitem_three_sections recap steps summary :
  getitem (three_sections recap steps summary) (lit "quick recap") = Ok recap
  /\ getitem (three_sections recap steps summary) (lit "next steps") = Ok steps
  /\ getitem (three_sections recap steps summary) (lit "summary") = Ok summary.
Proof. unfold getitem. rewrite !three_sections_lookup. by repeat split. Qed.

(** [parse_summary] raises nothing: it returns the parse of the three
    buckets. *)
Lemma parse_summary_ok text :
  parse_summary lower text
  = Ok {| quick_recap :=
            parse_quick_recap
              (spec_bucket lower (lit "quick recap") None (splitlines text));
          action_items :=
            spec_action_items
              (spec_bucket lower (lit "next steps") None (splitlines text));
          summary_topics :=
            parse_summary_topics
              (spec_bucket lower (lit "summary") None (splitlines text)) |}.
Proof.
  unfold parse_summary. rewrite split_sections_buckets. cbn [mbind result_bind].
  destruct (getitem_three_sections
              (spec_bucket lower (lit "quick recap") None (splitlines text))
              (spec_bucket lower (lit "next steps") None (splitlines text))
              (spec_bucket lower (lit "summary") None (splitlines text)))
    as (-> & -> & ->).
  cbn [mbind result_bind]. by rewrite parse_action_items_loop.
Qed.

(** C6. When no line of the text is a section header, the three buckets
    are empty, the parse is empty, and the rendered section holds, after
    its nine heading and metadata lines, the Agenda block with the single
    fallback bullet, the Discussion-notes block with the single
    pending-notes bullet and the Action-items table with its two heading
    rows and the single fallback row. *)
Theorem no_header_fallback (text : str) (args : Namespace) :
  existsb (is_header lower) (splitlines text) = false ->
  split_sections lower (splitlines text) = Ok (three_sections [] [] [])
  /\ parse_summary lower text = Ok empty_summary
  /\ format_agenda (summary_topics empty_summary)
     = [lit "- Updates from the supervisory team"]
  /\ format_discussion_notes (quick_recap empty_summary)
       (summary_topics empty_summary)
     = [lit "- Discussion notes pending."]
  /\ format_action_table (action_items empty_summary)
     = [lit "| Action | Owner | Due | Status |";
        lit "|--------|-------|-----|--------|";
        lit "| No action items recorded | - | - | - |"]
  /\ drop 9 (markdown_parts empty_summary args)
     = [lit "### Agenda";
        lit "- Updates from the supervisory team";
        [];
        lit "### Discussion notes";
        lit "- Discussion notes pending.";
        [];
        lit "### Action items";
        lit "| Action | Owner | Due | Status |";
        lit "|--------|-------|-----|--------|";
        lit "| No action items recorded | - | - | - |";
        [];
        lit "### Follow-up";
        follow_up_text args;
        []].
Proof.
  intros Hno.
  split.
  { rewrite split_sections_buckets.
    by rewrite !(spec_bucket_no_header lower _ _ Hno). }
  split.
  { rewrite parse_summary_ok.
    by rewrite !(spec_bucket_no_header lower _ _ Hno). }
  by repeat split.
Qed.
End Pipeline.

Lemma no_header_fallback_witness :
  existsb (is_header ascii_lower)
    (splitlines (lit "Notes of the day" ++ [10] ++ lit "Summary of it."))
  = false
  /\ parse_summary ascii_lower
       (lit "Notes of the day" ++ [10] ++ lit "Summary of it.")
     = Ok empty_summary.
Proof.
  assert (existsb (is_header ascii_lower)
            (splitlines (lit "Notes of the day" ++ [10] ++ lit "Summary of it."))
          = false) as H by reflexivity.
  split; [exact H|].
  exact (proj1 (proj2 (no_header_fallback ascii_lower _
                         (default_args (lit "summary.txt")) H))).
Defined.

(** ** How the run ends *)

Section Run.
Variable lower : str -> str.



End Run.



Example unreadable_input_run :
  run ascii_lower fs_unreadable (default_args (lit "summary.txt"))
  = UncaughtException
      (IOError (OSError PermissionError
                  (lit "[Errno 13] Permission denied: 'summary.txt'"))).
Proof. reflexivity. Qed.

(** ** Worked examples *)

(** Off the buckets, a line that ends in a newline after its full stop is
    still body text for the regex. *)
Example ends_sentence_newline :
  ends_sentence (lit "Done." ++ [10]) = true
  /\ ends_with_terminal (lit "Done." ++ [10]) = false.
Proof. by vm_compute. Qed.

Example splitlines_ex :
  splitlines (lit "a" ++ [13; 10] ++ lit "b" ++ [10; 10] ++ lit "c" ++ [10])
  = [lit "a"; lit "b"; []; lit "c"].
Proof. reflexivity. Qed.

Example parse_summary_ex :
  parse_summary ascii_lower
    (lit "Quick Recap" ++ [10] ++ lit "We met. All fine." ++ [10]
     ++ lit "Next Steps" ++ [10] ++ lit "Bob: send the draft" ++ [10]
     ++ lit "Summary" ++ [10] ++ lit "Budget" ++ [10] ++ lit "Agreed.")
  = Ok {| quick_recap := [lit "We met."; lit "All fine."];
          action_items := [(lit "Bob", lit "send the draft")];
          summary_topics := [(lit "Budget", lit "Agreed.")] |}.
Proof. by vm_compute. Qed.

Example run_ex :
  run ascii_lower
    {| read_text := fun _ => inr (lit "Recap" ++ [10] ++ lit "We met.");
       write_text := fun _ _ => None |}
    (default_args (lit "summary.txt"))
  = Exit 0
      (ToStdout
         (join [10]
            [lit "---"; lit "## Meeting YYYY-MM-DD"; [];
             lit "- **Date:** YYYY-MM-DD";
             lit "- **Time / connection:** TBD";
             lit "- **Next meeting:** TBD";
             lit "- **Attendees:** TBD";
             lit "- **Apologies:** None";
             [];
             lit "### Agenda";
             lit "- Updates from the supervisory team";
             [];
             lit "### Discussion notes";
             lit "- Quick recap: We met.";
             [];
             lit "### Action items";
             lit "| Action | Owner | Due | Status |";
             lit "|--------|-------|-----|--------|";
             lit "| No action items recorded | - | - | - |";
             [];
             lit "### Follow-up";
             lit "- Note any reminders or checks before the next meeting.";
             []])).
Proof. by vm_compute. Qed.

(** * Further properties *)

(** ** Trimming, again *)

Lemma lstrip_split s :
  exists ws, s = ws ++ lstrip s /\ forallb is_space ws = true.
Proof.
  induction s as [|c s (ws & E & Hws)]; simpl; [by exists []|].
  destruct (is_space c) eqn:Hc; [|by exists []].
  exists (c :: ws). simpl. rewrite Hc, Hws. split; [by f_equal|done].
Qed.

Lemma rstrip_split s :
  exists ws, s = rstrip s ++ ws /\ forallb is_space ws = true.
Proof.
  induction s as [|c s (ws & E & Hws)]; simpl; [by exists []|].
  destruct (rstrip s) as [|d r'] eqn:Er.
  - destruct (is_space c) eqn:Hc.
    + exists (c :: ws). simpl in *. rewrite Hc, Hws. split; [by f_equal|done].
    + exists ws. simpl in *. split; [by f_equal|done].
  - exists ws. split; [|done]. simpl. by f_equal.
Qed.

Lemma strip_split s :
  exists before after,
    s = before ++ strip s ++ after
    /\ forallb is_space before = true /\ forallb is_space after = true.
Proof.
  destruct (lstrip_split s) as (before & E1 & H1).
  destruct (rstrip_split (lstrip s)) as (after & E2 & H2).
  exists before, after. unfold strip. by rewrite <- E2, <- E1.
Qed.

Lemma visible_app s t : visible (s ++ t) = visible s ++ visible t.
Proof. apply List.filter_app. Qed.

Lemma visible_spaces ws : forallb is_space ws = true -> visible ws = [].
Proof.
  induction ws as [|c ws IH]; simpl; [done|].
  intros [Hc Hws]%andb_prop. rewrite Hc. simpl. by apply IH.
Qed.

Lemma visible_strip s : visible (strip s) = visible s.
Proof.
  destruct (strip_split s) as (before & after & E & H1 & H2).
  rewrite E at 2. rewrite !visible_app, (visible_spaces _ H1),
    (visible_spaces _ H2). simpl. by rewrite app_nil_r.
Qed.

Lemma rstrip_ends_clean s : ends_clean (rstrip s) = true.
Proof.
  unfold ends_clean. destruct (last (rstrip s)) as [c|] eqn:E; [|done].
  by rewrite (rstrip_last _ _ E).
Qed.

(** X1. [normalise_line] removes whitespace at the two ends and nothing
    else: the line is whitespace, the normalised line, whitespace; the
    normalised line neither starts nor ends with whitespace, is empty
    exactly for a line of whitespace, and is left alone by a second
    normalisation. *)
Theorem normalise_line_trimmed (line : str) :
  (exists before after,
     line = before ++ normalise_line line ++ after
     /\ forallb is_space before = true /\ forallb is_space after = true)
  /\ starts_clean (normalise_line line) = true
  /\ ends_clean (normalise_line line) = true
  /\ truthy (normalise_line line) = negb (forallb is_space line)
  /\ normalise_line (normalise_line line) = normalise_line line.
Proof.
  unfold normalise_line. split; [apply strip_split|].
  split; [apply rstrip_starts_clean, lstrip_starts_clean|].
  split; [apply rstrip_ends_clean|].
  split; [|apply strip_idem].
  destruct (forallb is_space line) eqn:E.
  - apply strip_nil in E. by rewrite E.
  - destruct (strip line) eqn:Es; [|done].
    apply strip_nil in Es. congruence.
Qed.

(** ** Sentences, again *)

Lemma concat_push c (l : list str) : concat (push c l) = c :: concat l.
Proof. by destruct l. Qed.

Lemma visible_scan s in_sep pt :
  visible (concat (re_split_scan in_sep pt s)) = visible s.
Proof.
  revert in_sep pt. induction s as [|c r IH]; intros in_sep pt; simpl; [done|].
  destruct (is_space c) eqn:Hc; simpl.
  - destruct in_sep; [apply IH|]. destruct pt; simpl; [apply IH|].
    rewrite concat_push. simpl. rewrite Hc. simpl. apply IH.
  - rewrite concat_push. simpl. rewrite Hc. simpl. f_equal. apply IH.
Qed.

Lemma visible_parts (l : list str) :
  visible (concat (List.map strip
                     (List.filter (fun part => truthy (strip part)) l)))
  = visible (concat l).
Proof.
  induction l as [|p l IH]; simpl; [done|].
  rewrite visible_app. destruct (truthy (strip p)) eqn:E; simpl.
  - by rewrite visible_app, visible_strip, IH.
  - apply truthy_false in E. rewrite <- (visible_strip p), E. simpl. exact IH.
Qed.

(** X2. The sentences of a paragraph hold its non-whitespace characters,
    all of them and in their order: splitting drops and moves nothing but
    whitespace. *)
Theorem sentences_from_paragraph_visible (paragraph : str) :
  visible (concat (sentences_from_paragraph paragraph)) = visible paragraph.
Proof.
  unfold sentences_from_paragraph.
  destruct (List.map strip _) as [|s rest] eqn:E.
  - simpl. by rewrite app_nil_r, visible_strip.
  - rewrite <- E, visible_parts. apply visible_scan.
Qed.

Lemma sentences_parts_clean paragraph :
  Forall (fun s => strip s = s /\ has_boundary false s = false
                   /\ truthy s = true)
    (List.map strip (List.filter (fun part => truthy (strip part))
                                 (SENTENCE_END_RE_split paragraph))).
Proof.
  pose proof (no_boundary_pieces paragraph) as H.
  induction H as [|p l Hp Hl IH]; simpl; [done|].
  destruct (truthy (strip p)) eqn:E; simpl; [|done].
  constructor; [|done].
  split; [apply strip_idem|]. split; [by apply has_boundary_strip|done].
Qed.

Lemma sentences_clean (paragraph : str) :
  Forall (fun s => strip s = s /\ has_boundary false s = false
                   /\ truthy s = negb (forallb is_space paragraph))
    (sentences_from_paragraph paragraph).
Proof.
  unfold sentences_from_paragraph.
  destruct (List.map strip _) as [|s rest] eqn:E.
  - apply (f_equal (@length _)) in E. rewrite length_map in E.
    apply nil_length_inv, filter_strip_nil, scan_spaces_inv in E.
    rewrite E. apply strip_nil in E. rewrite E. by repeat constructor.
  - assert (forallb is_space paragraph = false) as Hp.
    { destruct (forallb is_space paragraph) eqn:Hp; [|done].
      pose proof (scan_spaces paragraph false false Hp) as H.
      apply filter_strip_nil in H. unfold SENTENCE_END_RE_split in E.
      rewrite H in E. discriminate. }
    rewrite Hp, <- E. apply sentences_parts_clean.
Qed.

(** X3. Every sentence the splitter returns is trimmed and has no split
    point inside, and is empty only when the paragraph is whitespace. *)
Theorem sentences_from_paragraph_clean (paragraph : str) :
  Forall (fun s => strip s = s /\ has_boundary false s = false
                   /\ truthy s = negb (forallb is_space paragraph))
    (sentences_from_paragraph paragraph).
Proof. apply sentences_clean. Qed.

Lemma sentences_length paragraph :
  (1 <= length (sentences_from_paragraph paragraph))%nat.
Proof.
  unfold sentences_from_paragraph.
  destruct (List.map strip _); simpl; lia.
Qed.

Lemma parse_quick_recap_concat lines :
  parse_quick_recap lines = concat (List.map sentences_from_paragraph lines).
Proof. unfold parse_quick_recap. by rewrite fold_left_extend. Qed.

Lemma bucket_line_spaces line :
  bucket_line line -> forallb is_space line = false.
Proof.
  intros [Hne Htrim]. destruct (forallb is_space line) eqn:E; [|done].
  apply strip_nil in E. rewrite Htrim in E. by subst.
Qed.

Lemma parse_quick_recap_bucket lines :
  Forall bucket_line lines -> Forall bucket_line (parse_quick_recap lines).
Proof.
  rewrite parse_quick_recap_concat.
  induction 1 as [|l lines Hl Hlines IH]; simpl; [done|].
  apply Forall_app. split; [|done].
  eapply Forall_impl; [apply sentences_clean|].
  intros s (Hs & _ & Ht). rewrite (bucket_line_spaces _ Hl) in Ht.
  by split.
Qed.

(** X4. The recap parser works line by line: the sentences of two lists of
    lines put together are those of the first followed by those of the
    second, and every line gives at least one sentence.  On the lines of a
    bucket (non-empty, trimmed) every sentence is non-empty and trimmed. *)
Theorem parse_quick_recap_lines (lines more : list str) :
  parse_quick_recap (lines ++ more)
  = parse_quick_recap lines ++ parse_quick_recap more
  /\ (length lines <= length (parse_quick_recap lines))%nat
  /\ (Forall bucket_line lines -> Forall bucket_line (parse_quick_recap lines)).
Proof.
  rewrite !parse_quick_recap_concat. split; [|split].
  - by rewrite List.map_app, concat_app.
  - induction lines as [|l lines IH]; simpl; [done|].
    rewrite length_app. pose proof (sentences_length l). lia.
  - rewrite <- parse_quick_recap_concat. apply parse_quick_recap_bucket.
Qed.

Lemma parse_quick_recap_lines_witness :
  Forall bucket_line [lit "We met. All fine."]
  /\ Forall bucket_line (parse_quick_recap [lit "We met. All fine."]).
Proof.
  assert (Forall bucket_line [lit "We met. All fine."]) as H.
  { repeat constructor. }
  split; [exact H|].
  exact (proj2 (proj2 (parse_quick_recap_lines _ []) ) H).
Defined.

(** ** The section splitter, again *)

Section SplitterFurther.
Variable lower : str -> str.

Lemma spec_bucket_skip_prefix key pre rest :
  existsb (is_header lower) pre = false ->
  spec_bucket lower key None (pre ++ rest) = spec_bucket lower key None rest.
Proof.
  induction pre as [|raw pre IH]; simpl; [done|].
  intros [Hh Hrest]%orb_false_elim. unfold is_header, normalise_line in Hh.
  destruct (strip raw) as [|ch line'] eqn:Eline; [by apply IH|].
  rewrite (proj2 (SECTION_NAMES_lookup _)) in Hh.
  destruct (spec_header _); [done|by apply IH].
Qed.

(** X5. Lines before the first header are lost: a list of lines without
    header, put in front, does not change what the splitter returns. *)
Theorem split_sections_leading (pre rest : list str) :
  existsb (is_header lower) pre = false ->
  split_sections lower (pre ++ rest) = split_sections lower rest.
Proof.
  intros Hpre. rewrite !split_sections_buckets.
  by rewrite !(spec_bucket_skip_prefix _ _ _ Hpre).
Qed.

Lemma spec_bucket_normalised key lines : forall current,
  spec_bucket lower key current
    (List.map strip (List.filter (fun l => truthy (strip l)) lines))
  = spec_bucket lower key current lines.
Proof.
  induction lines as [|raw lines IH]; intros current; simpl; [done|].
  destruct (strip raw) as [|ch line'] eqn:Eline; simpl; [apply IH|].
  rewrite Eline. replace (strip (ch :: line')) with (ch :: line')
    by (rewrite <- Eline; symmetry; apply strip_idem).
  destruct (spec_header _); [apply IH|].
  destruct current; [|apply IH]. by rewrite IH.
Qed.

(** X6. The splitter looks at the lines through [normalise_line] only and
    skips the blank ones: trimming every line and removing the blank lines
    beforehand gives the same sections. *)
Theorem split_sections_normalised (lines : list str) :
  split_sections lower
    (List.map normalise_line
       (List.filter (fun l => truthy (normalise_line l)) lines))
  = split_sections lower lines.
Proof.
  rewrite !split_sections_buckets. unfold normalise_line.
  by rewrite !spec_bucket_normalised.
Qed.

Lemma spec_bucket_header key current h rest :
  is_header lower h = true ->
  spec_bucket lower key current (h :: rest)
  = spec_bucket lower key None (h :: rest).
Proof.
  unfold is_header, normalise_line. simpl.
  destruct (strip h) as [|ch line'] eqn:Eline; [done|].
  rewrite (proj2 (SECTION_NAMES_lookup _)). simpl.
  by destruct (spec_header _).
Qed.

Lemma spec_bucket_app_header key l1 h l2 : forall current,
  is_header lower h = true ->
  spec_bucket lower key current (l1 ++ h :: l2)
  = spec_bucket lower key current l1 ++ spec_bucket lower key None (h :: l2).
Proof.
  induction l1 as [|raw l1 IH]; intros current Hh.
  - by apply spec_bucket_header.
  - cbn [app spec_bucket]. destruct (strip raw) as [|ch line']; [by apply IH|].
    destruct (spec_header _); [by apply IH|].
    destruct current; [|by apply IH]. by rewrite IH, app_assoc.
Qed.

(** X7. A section may come in several parts: when a header line [h]
    starts the second of two lists of lines, the buckets of the two lists
    put together are the buckets of the first followed by the buckets of
    the second. *)
Theorem split_sections_accumulate (l1 l2 : list str) (h : str) :
  is_header lower h = true ->
  exists a1 b1 c1 a2 b2 c2,
    split_sections lower l1 = Ok (three_sections a1 b1 c1)
    /\ split_sections lower (h :: l2) = Ok (three_sections a2 b2 c2)
    /\ split_sections lower (l1 ++ h :: l2)
       = Ok (three_sections (a1 ++ a2) (b1 ++ b2) (c1 ++ c2)).
Proof.
  intros Hh. eexists _, _, _, _, _, _.
  split; [apply split_sections_buckets|].
  split; [apply split_sections_buckets|].
  rewrite split_sections_buckets. by rewrite !(spec_bucket_app_header _ _ _ _ _ Hh).
Qed.




End SplitterFurther.

Lemma split_sections_leading_witness :
  existsb (is_header ascii_lower) [lit "Meeting notes"; lit "by Zoom"] = false
  /\ split_sections ascii_lower
       ([lit "Meeting notes"; lit "by Zoom"] ++ [lit "Recap"; lit "We met."])
     = split_sections ascii_lower [lit "Recap"; lit "We met."].
Proof.
  split; [reflexivity|].
  apply (split_sections_leading ascii_lower). reflexivity.
Defined.

Lemma split_sections_accumulate_witness :
  is_header ascii_lower (lit "RECAP:") = true
  /\ exists a1 b1 c1 a2 b2 c2,
       split_sections ascii_lower [lit "recap"; lit "One."]
       = Ok (three_sections a1 b1 c1)
       /\ split_sections ascii_lower (lit "RECAP:" :: [lit "Two."])
          = Ok (three_sections a2 b2 c2)
       /\ split_sections ascii_lower
            ([lit "recap"; lit "One."] ++ lit "RECAP:" :: [lit "Two."])
          = Ok (three_sections (a1 ++ a2) (b1 ++ b2) (c1 ++ c2)).
Proof.
  split; [reflexivity|].
  exact (split_sections_accumulate ascii_lower [lit "recap"; lit "One."]
           [lit "Two."] (lit "RECAP:") eq_refl).
Defined.

(** ** The action-item parser, again *)

Lemma contains_app sep s t :
  contains sep (s ++ t) = contains sep s || contains sep t.
Proof. apply existsb_app. Qed.

Lemma contains_strip sep s : contains sep s = false -> contains sep (strip s) = false.
Proof.
  destruct (strip_split s) as (before & after & E & _ & _).
  rewrite E at 1. rewrite !contains_app.
  intros [_ [H _]%orb_false_elim]%orb_false_elim. exact H.
Qed.

Lemma first_colon_take line : forall i,
  first_colon line = Some i -> contains colon (take i line) = false.
Proof.
  induction line as [|c line IH]; intros i; [done|].
  rewrite first_colon_cons. destruct (c =? colon) eqn:Hc.
  - by intros [= <-].
  - destruct (first_colon line) as [j|]; [|done]. intros [= <-].
    cbn [take]. rewrite contains_cons, (N.eqb_sym colon c), Hc. by apply IH.
Qed.

Lemma first_colon_app owner rest :
  contains colon owner = false ->
  first_colon (owner ++ colon :: rest) = Some (length owner).
Proof.
  induction owner as [|c owner IH]; [done|].
  rewrite contains_cons. intros [Hc Ho]%orb_false_elim.
  cbn [app]. rewrite first_colon_cons, (N.eqb_sym c colon), Hc, (IH Ho). done.
Qed.

Lemma spec_action_record_ok line record :
  spec_action_record line = Some record -> action_record_ok record.
Proof.
  unfold spec_action_record, action_record_ok.
  destruct (first_colon line) as [i|] eqn:Ei; cbn [fst snd].
  - destruct (strip (drop (S i) line)) as [|a action] eqn:Ea; [done|].
    intros [= <-]. cbn [fst snd]. split; [|split].
    + destruct (strip (take i line)) as [|o owner] eqn:Eo; [done|].
      split; [done|]. rewrite <- Eo. apply strip_idem.
    + split; [done|]. rewrite <- Ea. apply strip_idem.
    + destruct (strip (take i line)) as [|o owner] eqn:Eo; [done|].
      rewrite <- Eo. by apply contains_strip, first_colon_take.
  - destruct (strip line) as [|a action] eqn:Ea; [done|].
    intros [= <-]. cbn [fst snd]. split; [done|]. split; [|done].
    split; [done|]. rewrite <- Ea. apply strip_idem.
Qed.

Lemma spec_action_items_cons line lines :
  spec_action_items (line :: lines)
  = match spec_action_record line with
    | Some record => record :: spec_action_items lines
    | None => spec_action_items lines
    end.
Proof. reflexivity. Qed.

Lemma spec_action_items_ok lines :
  Forall action_record_ok (spec_action_items lines)
  /\ (length (spec_action_items lines) <= length lines)%nat.
Proof.
  induction lines as [|line lines [IH1 IH2]]; [done|].
  rewrite spec_action_items_cons.
  destruct (spec_action_record line) as [record|] eqn:E; simpl.
  - split; [|lia]. constructor; [|done]. by eapply spec_action_record_ok.
  - split; [done|lia].
Qed.

(** X9. The action-item parser never raises and returns at most one record
    per line; in every record the owner and the action text are not empty
    and trimmed, and the owner holds no colon. *)
Theorem parse_action_items_records (lines : list str) :
  exists records,
    parse_action_items lines = Ok records
    /\ Forall action_record_ok records
    /\ (length records <= length lines)%nat.
Proof.
  exists (spec_action_items lines).
  split; [apply parse_action_items_loop|apply spec_action_items_ok].
Qed.

Lemma strip_space_cons s : strip (32 :: s) = strip s.
Proof. reflexivity. Qed.

Lemma drop_after_middle (s : str) c rest :
  drop (S (length s)) (s ++ c :: rest) = rest.
Proof. induction s as [|d s IH]; [done|exact IH]. Qed.

Lemma spec_action_record_line record :
  action_record_ok record ->
  spec_action_record (action_line record) = Some record.
Proof.
  destruct record as [owner action].
  intros ([Ho1 Ho2] & [Ha1 Ha2] & Hc). cbn [fst snd] in *.
  unfold spec_action_record, action_line. cbn [fst snd].
  change (lit ": ") with [colon; 32]. cbn [app].
  rewrite (first_colon_app _ _ Hc).
  rewrite take_app_length, drop_after_middle.
  cbn [fst snd]. rewrite strip_space_cons, Ho2, Ha2.
  destruct action; [done|]. by destruct owner.
Qed.

(** X10. Round trip: a record whose owner and action text are not empty and
    trimmed, with no colon in the owner, written as "owner: action", parses
    to exactly that record. *)
Theorem parse_action_line (record : str * str) :
  action_record_ok record ->
  parse_action_items [action_line record] = Ok [record].
Proof.
  intros H. rewrite parse_action_items_loop. unfold spec_action_items.
  simpl. by rewrite (spec_action_record_line _ H).
Qed.

Lemma parse_action_line_witness :
  action_record_ok (lit "Dr Who", lit "send: the draft")
  /\ parse_action_items [lit "Dr Who: send: the draft"]
     = Ok [(lit "Dr Who", lit "send: the draft")].
Proof.
  assert (action_record_ok (lit "Dr Who", lit "send: the draft")) as H.
  { by repeat split. }
  split; [exact H|]. exact (parse_action_line _ H).
Defined.

Lemma spec_action_items_lines records :
  Forall action_record_ok records ->
  spec_action_items (List.map action_line records) = records.
Proof.
  induction 1 as [|record records H _ IH]; [done|].
  cbn [List.map]. by rewrite spec_action_items_cons, (spec_action_record_line _ H), IH.
Qed.

(** X11. The records of the parser are in canonical form: written back as
    "owner: action" lines, the records of any input parse to themselves. *)
Theorem parse_action_items_canonical (lines : list str) :
  exists records,
    parse_action_items lines = Ok records
    /\ parse_action_items (List.map action_line records) = Ok records.
Proof.
  exists (spec_action_items lines). rewrite !parse_action_items_loop.
  split; [done|]. f_equal. apply spec_action_items_lines, spec_action_items_ok.
Qed.

Lemma first_colon_none line :
  contains colon line = false -> first_colon line = None.
Proof.
  pose proof (split_once_first_colon line) as H.
  destruct (first_colon line); [|done]. destruct H as [H _]. congruence.
Qed.

(** X12. The parser works line by line: the records of two lists of lines
    put together are those of the first followed by those of the second.
    A bucket line (non-empty, trimmed) without colon is never dropped: it
    is the action text of a record owned by "TBD". *)
Theorem parse_action_items_lines (lines more : list str) (line : str) :
  (exists records records',
     parse_action_items lines = Ok records
     /\ parse_action_items more = Ok records'
     /\ parse_action_items (lines ++ more) = Ok (records ++ records'))
  /\ (bucket_line line -> contains colon line = false ->
      parse_action_items [line] = Ok [(lit "TBD", line)]).
Proof.
  split.
  - exists (spec_action_items lines), (spec_action_items more).
    rewrite !parse_action_items_loop. repeat split.
    unfold spec_action_items. by rewrite omap_app.
  - intros [Hne Htrim] Hc. rewrite parse_action_items_loop.
    unfold spec_action_items, spec_action_record. simpl.
    rewrite (first_colon_none _ Hc). cbn [fst snd]. rewrite Htrim.
    by destruct line.
Qed.

Lemma parse_action_items_lines_witness :
  bucket_line (lit "Book the room")
  /\ contains colon (lit "Book the room") = false
  /\ parse_action_items [lit "Book the room"]
     = Ok [(lit "TBD", lit "Book the room")].
Proof.
  assert (bucket_line (lit "Book the room")) as H by (by split).
  split; [exact H|]. split; [reflexivity|].
  exact (proj2 (parse_action_items_lines [] [] _) H eq_refl).
Defined.

(** ** The summary-topic parser, again *)

Lemma topic_record_state_ok st : title_ok st -> topic_record_ok (topic_record st).
Proof.
  unfold title_ok, topic_record, topic_record_ok, pending_title. cbn [fst snd].
  intros Ht. split; [|apply strip_idem].
  destruct (current_title st) as [t|]; simpl; [|done].
  destruct (truthy t) eqn:E; [|done]. by split.
Qed.

Lemma flush_ok st :
  title_ok st -> Forall topic_record_ok (topics st) ->
  Forall topic_record_ok (flush st).
Proof.
  intros Ht Hs. unfold flush. destruct (pending st); [|done].
  apply Forall_app. split; [done|]. constructor; [|done].
  by apply topic_record_state_ok.
Qed.

Lemma topic_step_ok st line :
  title_ok st -> Forall topic_record_ok (topics st) ->
  title_ok (topic_step st line)
  /\ Forall topic_record_ok (topics (topic_step st line)).
Proof.
  intros Ht Hs. unfold topic_step.
  destruct (truthy line); cbn [negb]; [|done].
  destruct (ends_sentence line); cbn [negb]; [done|].
  split; [apply strip_idem|by apply flush_ok].
Qed.

Lemma fold_topic_step_ok lines : forall st,
  title_ok st -> Forall topic_record_ok (topics st) ->
  Forall topic_record_ok (flush (fold_left topic_step lines st)).
Proof.
  induction lines as [|line lines IH]; intros st Ht Hs; simpl.
  - by apply flush_ok.
  - destruct (topic_step_ok st line Ht Hs). by apply IH.
Qed.

Lemma flush_length st :
  length (flush st)
  = (length (topics st) + if pending st then 1 else 0)%nat.
Proof.
  unfold flush. destruct (pending st); [|lia].
  rewrite length_app. simpl. lia.
Qed.

Lemma topic_step_measure st line :
  (length (topics (topic_step st line))
   + (if pending (topic_step st line) then 1 else 0)
   <= length (topics st) + (if pending st then 1 else 0)
      + if truthy line then 1 else 0)%nat.
Proof.
  unfold topic_step. destruct (truthy line); cbn [negb]; [|lia].
  destruct (ends_sentence line); cbn [negb topics].
  - repeat match goal with
           | |- context [if pending ?x then _ else _] => destruct (pending x)
           end; lia.
  - rewrite flush_length.
    repeat match goal with
           | |- context [if pending ?x then _ else _] => destruct (pending x)
           end; lia.
Qed.

Lemma fold_topic_step_length lines : forall st,
  (length (flush (fold_left topic_step lines st))
   <= length (topics st) + (if pending st then 1 else 0)
      + length (List.filter truthy lines))%nat.
Proof.
  induction lines as [|line lines IH]; intros st; cbn [fold_left List.filter].
  - rewrite flush_length. simpl. lia.
  - specialize (IH (topic_step st line)).
    pose proof (topic_step_measure st line) as Hm.
    destruct (truthy line); simpl; lia.
Qed.

Lemma fold_topic_step_filter lines : forall st,
  fold_left topic_step (List.filter truthy lines) st
  = fold_left topic_step lines st.
Proof.
  induction lines as [|line lines IH]; intros st; simpl; [done|].
  destruct (truthy line) eqn:E; simpl; [apply IH|].
  rewrite IH. f_equal. unfold topic_step. by rewrite E.
Qed.

(** X13. For every list of lines, every record of the summary-topic parser
    has a non-empty, trimmed title and a trimmed body; there are at most as
    many records as non-empty lines; and empty lines count for nothing. *)
Theorem parse_summary_topics_records (lines : list str) :
  Forall topic_record_ok (parse_summary_topics lines)
  /\ (length (parse_summary_topics lines)
      <= length (List.filter truthy lines))%nat
  /\ parse_summary_topics (List.filter truthy lines)
     = parse_summary_topics lines.
Proof.
  unfold parse_summary_topics. split; [|split].
  - by apply fold_topic_step_ok.
  - pose proof (fold_topic_step_length lines
                  {| topics := []; current_title := None; current_body := [] |})
      as H.
    simpl in H. exact H.
  - by rewrite fold_topic_step_filter.
Qed.

Lemma spec_group_titles title body_lines lines :
  List.map fst (spec_group title body_lines lines)
  = title :: List.filter (fun l => negb (ends_with_terminal l)) lines.
Proof.
  revert title body_lines.
  induction lines as [|line lines IH]; intros title body_lines; simpl; [done|].
  destruct (ends_with_terminal line); simpl; [apply IH|]. by rewrite IH.
Qed.

(** X14. On the lines of a bucket (non-empty, trimmed) the titles of the
    records are the title lines, in order, after the title "Summary" when
    the first line is body text; so a bucket with a line gives a record. *)
Theorem parse_summary_topics_titles (lines : list str) :
  Forall bucket_line lines ->
  List.map fst (parse_summary_topics lines)
  = match lines with
    | [] => []
    | line :: _ => if ends_with_terminal line then [lit "Summary"] else []
    end
    ++ List.filter (fun l => negb (ends_with_terminal l)) lines.
Proof.
  intros H. rewrite (parse_summary_topics_bucket _ H).
  destruct lines as [|line rest]; [done|]. simpl.
  destruct (ends_with_terminal line); simpl; by rewrite spec_group_titles.
Qed.

Lemma parse_summary_topics_titles_witness :
  Forall bucket_line [lit "Noted."; lit "Budget"; lit "Agreed!"; lit "Risks"]
  /\ List.map fst
       (parse_summary_topics
          [lit "Noted."; lit "Budget"; lit "Agreed!"; lit "Risks"])
     = [lit "Summary"; lit "Budget"; lit "Risks"].
Proof.
  assert (Forall bucket_line
            [lit "Noted."; lit "Budget"; lit "Agreed!"; lit "Risks"]) as H.
  { repeat constructor. }
  split; [exact H|]. rewrite (parse_summary_topics_titles _ H). reflexivity.
Defined.

(** ** The renderer, again *)

Lemma fold_left_snoc_map {A B} (f : A -> B) (l : list A) (acc : list B) :
  fold_left (fun acc x => acc ++ [f x]) l acc = acc ++ List.map f l.
Proof.
  revert acc. induction l as [|x l IH]; intros acc; simpl.
  - by rewrite app_nil_r.
  - by rewrite IH, <- app_assoc.
Qed.

Lemma format_action_table_eq (items : list (str * str)) :
  format_action_table items
  = [lit "| Action | Owner | Due | Status |";
     lit "|--------|-------|-----|--------|"]
    ++ match items with
       | [] => [lit "| No action items recorded | - | - | - |"]
       | _ :: _ => List.map action_row items
       end.
Proof.
  unfold format_action_table. destruct items as [|item items]; [done|].
  apply (fold_left_snoc_map action_row).
Qed.

Lemma format_discussion_notes_eq (sentences : list str)
    (topics : list (str * str)) :
  format_discussion_notes sentences topics
  = match sentences, topics with
    | [], [] => [lit "- Discussion notes pending."]
    | [], _ :: _ => List.map topic_bullet topics
    | _ :: _, _ => recap_bullet sentences :: List.map topic_bullet topics
    end.
Proof.
  unfold format_discussion_notes.
  destruct sentences as [|s [|s' rest]]; cbn [app].
  - rewrite (fold_left_snoc_map topic_bullet). by destruct topics.
  - by rewrite (fold_left_snoc_map topic_bullet).
  - by rewrite (fold_left_snoc_map topic_bullet).
Qed.

(** X15. The action table is its two heading rows followed by one row per
    action item, in order, or by the single fallback row when there is no
    item. *)
Theorem format_action_table_rows (items : list (str * str)) :
  format_action_table items
  = [lit "| Action | Owner | Due | Status |";
     lit "|--------|-------|-----|--------|"]
    ++ match items with
       | [] => [lit "| No action items recorded | - | - | - |"]
       | _ :: _ => List.map action_row items
       end
  /\ length (format_action_table items) = (2 + Nat.max 1 (length items))%nat.
Proof.
  pose proof (format_action_table_eq items) as E.
  split; [exact E|]. rewrite E, length_app.
  destruct items; simpl; [done|]. by rewrite length_map.
Qed.

(** X16. The discussion notes are one "Quick recap" bullet holding the
    recap sentences joined with "; " when there is a sentence (one sentence
    alone is rendered as it is), followed by one bullet per topic, in
    order; they are the single pending-notes bullet when there is neither
    sentence nor topic, and are never empty. *)
Theorem format_discussion_notes_bullets (sentences : list str)
    (topics : list (str * str)) :
  format_discussion_notes sentences topics
  = match sentences, topics with
    | [], [] => [lit "- Discussion notes pending."]
    | [], _ :: _ => List.map topic_bullet topics
    | _ :: _, _ => recap_bullet sentences :: List.map topic_bullet topics
    end
  /\ length (format_discussion_notes sentences topics)
     = Nat.max 1 (match sentences with [] => 0 | _ :: _ => 1 end
                  + length topics)%nat.
Proof.
  pose proof (format_discussion_notes_eq sentences topics) as E.
  split; [exact E|]. rewrite E.
  destruct sentences, topics; simpl; rewrite ?length_map; lia.
Qed.

(** ** The rendered section, again *)

Lemma markdown_parts_eq parsed args :
  markdown_parts parsed args
  = [ lit "---";
      lit "## Meeting " ++ date_label args;
      [];
      lit "- **Date:** " ++ date_label args;
      lit "- **Time / connection:** " ++ time_connection args;
      lit "- **Next meeting:** " ++ str_or (next_meeting args) (lit "TBD");
      lit "- **Attendees:** "
      ++ str_or (attendees args) (str_or (student args) (lit "TBD"));
      lit "- **Apologies:** " ++ str_or (apologies args) (lit "None");
      [];
      lit "### Agenda" ]
    ++ format_agenda (summary_topics parsed)
    ++ [ []; lit "### Discussion notes" ]
    ++ format_discussion_notes (quick_recap parsed) (summary_topics parsed)
    ++ [ []; lit "### Action items" ]
    ++ format_action_table (action_items parsed)
    ++ [ []; lit "### Follow-up"; follow_up_text args; [] ].
Proof. reflexivity. Qed.

(** X17. The renderer drops nothing of the parse: every topic has its
    agenda bullet and its discussion bullet among the rendered lines, every
    action item has its table row, and the recap sentences, when there are
    any, have their bullet. *)
Theorem markdown_parts_covers (parsed : ParsedSummary) (args : Namespace) :
  (forall topic,
     In topic (summary_topics parsed) ->
     In (agenda_bullet topic) (markdown_parts parsed args)
     /\ In (topic_bullet topic) (markdown_parts parsed args))
  /\ (forall item,
        In item (action_items parsed) ->
        In (action_row item) (markdown_parts parsed args))
  /\ match quick_recap parsed with
     | [] => True
     | _ :: _ => In (recap_bullet (quick_recap parsed)) (markdown_parts parsed args)
     end.
Proof.
  rewrite markdown_parts_eq, format_action_table_eq, format_discussion_notes_eq.
  split; [|split].
  - intros topic Hin. split.
    + apply in_or_app. right. apply in_or_app. left.
      unfold format_agenda. destruct (summary_topics parsed); [done|].
      by apply (in_map agenda_bullet).
    + do 3 (apply in_or_app; right). apply in_or_app. left.
      destruct (quick_recap parsed), (summary_topics parsed) eqn:E; try done.
      * rewrite <- E in *. by apply (in_map topic_bullet).
      * right. rewrite <- E in *. by apply (in_map topic_bullet).
  - intros item Hin.
    do 5 (apply in_or_app; right). apply in_or_app. left.
    apply in_or_app. right.
    destruct (action_items parsed) eqn:E; [done|].
    rewrite <- E in *. by apply (in_map action_row).
  - destruct (quick_recap parsed) eqn:E; [done|].
    do 3 (apply in_or_app; right). apply in_or_app. left. by left.
Qed.

Lemma markdown_parts_covers_witness :
  In (lit "Bob", lit "send it")
     (action_items {| quick_recap := []; action_items := [(lit "Bob", lit "send it")];
                      summary_topics := [] |})
  /\ In (lit "| send it | Bob |  | Open |")
        (markdown_parts
           {| quick_recap := []; action_items := [(lit "Bob", lit "send it")];
              summary_topics := [] |}
           (default_args (lit "summary.txt"))).
Proof.
  assert (In (lit "Bob", lit "send it")
            (action_items {| quick_recap := [];
                             action_items := [(lit "Bob", lit "send it")];
                             summary_topics := [] |})) as H by (by left).
  split; [exact H|].
  exact (proj1 (proj2 (markdown_parts_covers _ (default_args (lit "summary.txt"))))
           _ H).
Defined.

Lemma join_cons2 sep (x y : str) l :
  join sep (x :: y :: l) = x ++ sep ++ join sep (y :: l).
Proof. reflexivity. Qed.





(** ** Lines and line ends *)

Lemma splitlines_cons c r :
  splitlines (c :: r)
  = if is_linebreak c then
      [] :: match r with
            | d :: r' =>
                if (c =? 13) && (d =? 10) then splitlines r' else splitlines r
            | [] => splitlines r
            end
    else push c (splitlines r).
Proof. reflexivity. Qed.

Lemma splitlines_no_linebreak l :
  no_linebreak l = true ->
  splitlines l = match l with [] => [] | _ :: _ => [l] end.
Proof.
  induction l as [|c l IH]; [done|].
  cbn [no_linebreak forallb]. intros [Hc Hl]%andb_prop.
  apply negb_true_iff in Hc. rewrite splitlines_cons, Hc, (IH Hl).
  by destruct l.
Qed.

Lemma splitlines_app_lf l t :
  no_linebreak l = true -> splitlines (l ++ 10 :: t) = l :: splitlines t.
Proof.
  induction l as [|c l IH]; cbn [app].
  - intros _. rewrite splitlines_cons. by destruct t.
  - cbn [no_linebreak forallb]. intros [Hc Hl]%andb_prop.
    apply negb_true_iff in Hc. by rewrite splitlines_cons, Hc, (IH Hl).
Qed.

Lemma splitlines_app_crlf l t :
  no_linebreak l = true -> splitlines (l ++ 13 :: 10 :: t) = l :: splitlines t.
Proof.
  induction l as [|c l IH]; cbn [app].
  - intros _. by rewrite splitlines_cons.
  - cbn [no_linebreak forallb]. intros [Hc Hl]%andb_prop.
    apply negb_true_iff in Hc. by rewrite splitlines_cons, Hc, (IH Hl).
Qed.

Section PipelineFurther.
Variable lower : str -> str.

Lemma spec_bucket_cons_eq key current raw l1 l2 :
  (forall current', spec_bucket lower key current' l1
                    = spec_bucket lower key current' l2) ->
  spec_bucket lower key current (raw :: l1)
  = spec_bucket lower key current (raw :: l2).
Proof.
  intros H. simpl. destruct (strip raw); [apply H|].
  destruct (spec_header _); [apply H|].
  destruct current; [|apply H]. by rewrite H.
Qed.

(** The buckets of a text written as lines joined by a line end are the
    buckets of the lines. *)
Lemma spec_bucket_join key sep lines :
  sep = [10] \/ sep = [13; 10] ->
  Forall (fun l => no_linebreak l = true) lines ->
  forall current,
    spec_bucket lower key current (splitlines (join sep lines))
    = spec_bucket lower key current lines.
Proof.
  intros Hsep. induction 1 as [|l lines Hl Hlines IH]; intros current; [done|].
  destruct lines as [|l2 lines].
  - cbn [join]. rewrite (splitlines_no_linebreak _ Hl). by destruct l.
  - rewrite join_cons2.
    assert (splitlines (l ++ sep ++ join sep (l2 :: lines))
            = l :: splitlines (join sep (l2 :: lines))) as ->.
    { destruct Hsep as [-> | ->]; cbn [app].
      - by apply splitlines_app_lf.
      - by apply splitlines_app_crlf. }
    by apply spec_bucket_cons_eq.
Qed.

(** X19. A text made of lines joined by line feeds, or by carriage return
    and line feed, is split into the sections of those lines, when no line
    holds a line-break character itself; so the two kinds of line end give
    the same parse. *)
Theorem parse_summary_line_ends (lines : list str) :
  Forall (fun l => no_linebreak l = true) lines ->
  split_sections lower (splitlines (join [10] lines))
  = split_sections lower lines
  /\ split_sections lower (splitlines (join [13; 10] lines))
     = split_sections lower lines
  /\ parse_summary lower (join [13; 10] lines)
     = parse_summary lower (join [10] lines).
Proof.
  intros H. rewrite !split_sections_buckets, !parse_summary_ok.
  rewrite !(spec_bucket_join _ [10] lines (or_introl eq_refl) H).
  by rewrite !(spec_bucket_join _ [13; 10] lines (or_intror eq_refl) H).
Qed.

(** ** The whole parse, again *)

(** X20. For every text the parse succeeds and holds records in normal
    form only: recap sentences that are non-empty and trimmed, action
    items with non-empty, trimmed owner and action text and no colon in the
    owner, topics with a non-empty, trimmed title and a trimmed body. *)
Theorem parse_summary_records (text : str) :
  exists parsed, parse_summary lower text = Ok parsed /\ parsed_ok parsed.
Proof.
  eexists. split; [apply parse_summary_ok|].
  split; [|split]; cbn [quick_recap action_items summary_topics].
  - apply parse_quick_recap_bucket, spec_bucket_lines.
  - apply spec_action_items_ok.
  - unfold parse_summary_topics. by apply fold_topic_step_ok.
Qed.

(** ** How the run ends, again *)

End PipelineFurther.

Lemma parse_summary_line_ends_witness :
  Forall (fun l => no_linebreak l = true)
    [lit "Recap"; lit "We met."; []; lit "Actions"; lit "Bob: send it"]
  /\ parse_summary ascii_lower
       (join [13; 10]
          [lit "Recap"; lit "We met."; []; lit "Actions"; lit "Bob: send it"])
     = parse_summary ascii_lower
         (join [10]
            [lit "Recap"; lit "We met."; []; lit "Actions"; lit "Bob: send it"]).
Proof.
  assert (Forall (fun l => no_linebreak l = true)
            [lit "Recap"; lit "We met."; []; lit "Actions"; lit "Bob: send it"])
    as H by (by repeat constructor).
  split; [exact H|].
  exact (proj2 (proj2 (parse_summary_line_ends ascii_lower _ H))).
Defined.


(** ** Placeholders *)




(** X23. A paragraph without split point (no one of [.!?] followed by
    whitespace) is one sentence, the trimmed paragraph. *)
Theorem sentences_from_paragraph_single (paragraph : str) :
  has_boundary false paragraph = false ->
  sentences_from_paragraph paragraph = [strip paragraph].
Proof.
  intros H. unfold sentences_from_paragraph, SENTENCE_END_RE_split.
  rewrite (scan_no_boundary _ _ H). simpl.
  by destruct (truthy (strip paragraph)).
Qed.

Lemma sentences_from_paragraph_single_witness :
  has_boundary false (lit "  See v1.2 (e.g.this) now?") = false
  /\ sentences_from_paragraph (lit "  See v1.2 (e.g.this) now?")
     = [lit "See v1.2 (e.g.this) now?"].
Proof.
  split; [reflexivity|].
  apply (sentences_from_paragraph_single (lit "  See v1.2 (e.g.this) now?")).
  reflexivity.
Defined.
